(** * system-security-lab: the overflow victims and the RTSan demos

    A shallow embedding of the proof-of-concept programs of the repository:

    - [Simple]    : control-flow-experiments/simple/step1_overflow.c
    - [Coroutine] : control-flow-experiments/coroutines/
                    step3_coroutine_overflow.cpp
    - [Step0]     : the step-0 password variant (step0_cfi.c)
    - [RealTime]  : sanitizer/rtsan/real_time.cpp
    - [Modem]     : sanitizer/rtsan/esp_modem_rtsan.cpp

    The victims run on a small machine model ([Machine]): the Frame is a flat
    array of bytes laid out by the x86-64 rules (8-byte little-endian
    pointers, natural alignment), standard input is the list of bytes up to
    end-of-file, and every observable action is appended to a trace. A call
    through the slot reaches the functions of the program that the slot can
    sensibly hold; a jump to any other address ends the run as a fault.
    Bytes stored past the end of the Frame are collected, not interpreted.

    The real-time demos ([RealTime], [Modem]) are run for the operations
    they perform: function entries and exits with their effect attributes,
    library calls, atomic accesses. [Rtsan] holds the checker that reads
    such a log. *)

From Stdlib Require Import ZArith List String Ascii Bool Lia HexString
  DecimalString.
From coqutil Require Import Byte Word.LittleEndianList.
Import ListNotations.

Local Open Scope string_scope.
Local Open Scope list_scope.
Local Open Scope Z_scope.

(* ===================================================================== *)
(** * Searching in strings                                                *)
(* ===================================================================== *)

Module Text.

Definition LF : string := String (ascii_of_nat 10) "".
Definition CR : string := String (ascii_of_nat 13) "".

Fixpoint starts_with (needle s : string) : bool :=
  match needle, s with
  | EmptyString, _ => true
  | String a needle', String b s' => Ascii.eqb a b && starts_with needle' s'
  | String _ _, EmptyString => false
  end.

(** s.find(needle): the first position at which [needle] occurs. *)
Fixpoint find (needle s : string) : option nat :=
  if starts_with needle s then Some 0%nat
  else match s with
       | EmptyString => None
       | String _ s' => option_map S (find needle s')
       end.

(** s.find(needle) != npos *)
Definition found (needle s : string) : bool :=
  match find needle s with
  | Some _ => true
  | None => false
  end.

Fixpoint has_char (c : ascii) (s : string) : bool :=
  match s with
  | EmptyString => false
  | String d s' => Ascii.eqb c d || has_char c s'
  end.

(** The lines of a text; what follows the last line feed counts as a
    line when it is not empty. *)
Fixpoint lines (s : string) : list string :=
  match s with
  | EmptyString => []
  | String c rest =>
      if Ascii.eqb c (ascii_of_nat 10) then EmptyString :: lines rest
      else match lines rest with
           | [] => [String c EmptyString]
           | l :: ls => String c l :: ls
           end
  end.

End Text.

(* ===================================================================== *)
(** * Computations with a state that may stop early                       *)
(* ===================================================================== *)

Module Proc.

(** Why a computation stops early: a jump to an address that holds no
    function of the program, a string read through a bad pointer, the abort
    of the integrity check, the resumption of a coroutine that cannot be
    resumed, a call through a null object pointer, or fuel that ran out. *)
Inductive stop := WildJump (a : Z) | BadString (p : Z) | CfiAbort (a : Z)
                | BadResume | NullDeref | Starved.

Inductive result (S A : Type) :=
| Done (a : A) (s : S)
| Halt (why : stop) (s : S).
Arguments Done {S A} a s.
Arguments Halt {S A} why s.

Definition M (S A : Type) : Type := S -> result S A.

Definition ret {S A} (a : A) : M S A := fun s => Done a s.

Definition bind {S A B} (c : M S A) (k : A -> M S B) : M S B :=
  fun s => match c s with
           | Done a s' => k a s'
           | Halt w s' => Halt w s'
           end.

Definition halt {S A} (w : stop) : M S A := fun s => Halt w s.

(** The state a computation ends in, however it ends. *)
Definition final {S A} (r : result S A) : S :=
  match r with
  | Done _ s => s
  | Halt _ s => s
  end.

Declare Scope proc_scope.
Delimit Scope proc_scope with proc.
Notation "x <- c ;; k" := (bind c (fun x => k))
  (at level 61, c at next level, right associativity) : proc_scope.
Notation "c ;; k" := (bind c (fun _ => k))
  (at level 61, right associativity) : proc_scope.

End Proc.

(* ===================================================================== *)
(** * The machine the victims run on                                      *)
(* ===================================================================== *)

Module Machine.
Export Proc.
Export Text.

(** ** Pointers *)

Definition NULL : Z := 0.
Definition PTR_BYTES : nat := 8.
Definition PTR_MAX : Z := 2 ^ 64.

Definition is_ptr (a : Z) : Prop := 0 <= a < PTR_MAX.

(** ** Struct layout: every member at the next multiple of its alignment *)

Record member := Member { m_name : string; m_size : nat; m_align : nat }.

Definition char_array (name : string) (n : nat) : member := Member name n 1.
Definition pointer (name : string) : member := Member name PTR_BYTES PTR_BYTES.

Definition align_up (off a : nat) : nat := (((off + a - 1) / a) * a)%nat.

Fixpoint place (off : nat) (ms : list member) : list (string * nat) :=
  match ms with
  | [] => []
  | m :: rest =>
      let o := align_up off (m_align m) in
      (m_name m, o) :: place (o + m_size m) rest
  end.

Fixpoint end_of (off : nat) (ms : list member) : nat :=
  match ms with
  | [] => off
  | m :: rest => end_of (align_up off (m_align m) + m_size m)%nat rest
  end.

Definition struct_align (ms : list member) : nat :=
  fold_right (fun m a => Nat.max (m_align m) a) 1%nat ms.

Definition sizeof (ms : list member) : nat :=
  align_up (end_of 0%nat ms) (struct_align ms).

Fixpoint assoc (name : string) (l : list (string * nat)) : nat :=
  match l with
  | [] => 0%nat
  | (n, o) :: rest => if String.eqb n name then o else assoc name rest
  end.

Definition offsetof (ms : list member) (name : string) : nat :=
  assoc name (place 0%nat ms).

Fixpoint member_size (ms : list member) (name : string) : nat :=
  match ms with
  | [] => 0%nat
  | m :: rest => if String.eqb (m_name m) name then m_size m
                 else member_size rest name
  end.

(** ** Byte memory of one object *)

Definition mem := list byte.

(** [write m off d] stores [d] from offset [off] on; what does not fit in
    the object is cut off here and accounted for by [overrun]. *)
Definition write (m : mem) (off : nat) (d : list byte) : mem :=
  firstn off m ++ firstn (List.length m - off)%nat d
    ++ skipn (off + List.length d)%nat m.

Definition overrun (m : mem) (off : nat) (d : list byte) : list byte :=
  skipn (List.length m - off)%nat d.

Definition read_ptr (m : mem) (off : nat) : Z :=
  le_combine (firstn PTR_BYTES (skipn off m)).

Definition write_ptr (m : mem) (off : nat) (v : Z) : mem :=
  write m off (le_split PTR_BYTES v).

(** Storage that was never initialised: whatever bytes happen to be
    there, cut or padded to the size of the object. *)
Definition uninit (n : nat) (junk : list byte) : mem :=
  firstn n (junk ++ repeat Byte.x00 n).

(** ** What a run can be observed to do *)

Inductive event :=
| EStore (off : nat) (v : Z)          (* pointer store into the Frame *)
| ELoad (off : nat) (v : Z)           (* pointer load from the Frame *)
| EStdout (text : string)             (* text handed to stdout *)
| EFlush                              (* fflush(stdout), std::endl *)
| ERead (off req got : nat)           (* fread(frame + off, 1, req, stdin) *)
| EInvoke (target arg : Z)            (* call through the callable slot *)
| ESystem (cmd : Z)                   (* system(cmd) *)
| EEnter (fn : string)                (* control reaches a function *)
| EMalloc (n : nat)
| EFree.


(** The state of a victim. Bytes stored past the end of the Frame are
    collected in [spilled]; what they overwrite there is described only
    where a victim reads it back (the local cmd of the simple victim). *)
Record state := State {
  frame   : mem;            (* the bytes of the Frame object *)
  stdin   : list byte;      (* unread standard input *)
  spilled : list byte;      (* bytes stored past the end of the Frame *)
  trace   : list event      (* oldest first *)
}.

Local Open Scope proc_scope.

Definition emit (e : event) : M state unit :=
  fun s => Done tt (State (frame s) (stdin s) (spilled s) (trace s ++ [e])).

Definition store (off : nat) (v : Z) : M state unit :=
  fun s => Done tt (State (write_ptr (frame s) off v) (stdin s) (spilled s)
                          (trace s ++ [EStore off v])).

Definition load (off : nat) : M state Z :=
  fun s => Done (read_ptr (frame s) off)
                (State (frame s) (stdin s) (spilled s)
                       (trace s ++ [ELoad off (read_ptr (frame s) off)])).

Definition enter (fn : string) : M state unit := emit (EEnter fn).
Definition printf (text : string) : M state unit := emit (EStdout text).
Definition fflush : M state unit := emit EFlush.

(** fread(frame + off, size, nmemb, stdin): takes bytes until the request
    is filled or the input ends, and stores every one of them from
    [off] on. The length of the destination array is no argument of it. *)
Definition fread (off size nmemb : nat) : M state nat :=
  fun s =>
    let req := (size * nmemb)%nat in
    let data := firstn req (stdin s) in
    Done (List.length data / size)%nat
         (State (write (frame s) off data)
                (skipn req (stdin s))
                (spilled s ++ overrun (frame s) off data)
                (trace s ++ [ERead off req (List.length data)])).

(** ** Functions that can be reached through a pointer *)

(** The signature a function was declared with, as far as the
    integrity check can tell functions apart. *)
Inductive signature := Sig_void_cstr | Sig_void_void.

Definition signature_eqb (a b : signature) : bool :=
  match a, b with
  | Sig_void_cstr, Sig_void_cstr => true
  | Sig_void_void, Sig_void_void => true
  | _, _ => false
  end.

Definition code := Z -> option (signature * (Z -> M state unit)).

(** A call through a slot declared as pointer to a function that takes a
    C string and returns nothing. With the integrity check on, a target of
    another signature aborts the run; without it the call goes through.
    The sources say what runs at the addresses of the victim's own
    functions and nothing of what runs elsewhere: at any other address
    control leaves the code described here and the description of the run
    ends, with WildJump; the program itself may well run on from there. *)
Definition icall (text : code) (cfi : bool) (target arg : Z)
  : M state unit :=
  emit (EInvoke target arg) ;;
  match text target with
  | None => halt (if cfi then CfiAbort target else WildJump target)
  | Some (sg, body) =>
      if cfi && negb (signature_eqb sg Sig_void_cstr)
      then halt (CfiAbort target)
      else body arg
  end.

(** ** The environment of one run *)

Record env := Env {
  argv    : list Z;                 (* argv[0] .. argv[argc-1] *)
  cstr    : Z -> option string;    (* the C strings readable at an address *)
  input   : list byte;              (* standard input up to end-of-file *)
  junk    : list byte;              (* what the Frame's storage held before *)
  cfi     : bool                    (* built with the integrity check *)
}.

Definition argc (e : env) : Z := Z.of_nat (List.length (argv e)).

(** Every argument is a string that can be read. *)
Definition readable_args (e : env) : Prop :=
  Forall (fun p => cstr e p <> None) (argv e).

(** argv[i]; argv[argc] is a null pointer. *)
Definition argv_at (e : env) (i : nat) : Z := nth i (argv e) NULL.

Definition boot (size : nat) (e : env) : state :=
  State (uninit size (junk e)) (input e) [] [].

(** system(cmd): the command is run by a shell in a process of its own,
    which is where the string is read; a null pointer only asks whether a
    shell exists. The call comes back whatever the pointer is. *)
Definition system (cmd : Z) : M state unit :=
  emit (ESystem cmd).

(** A pointer variable that lies right behind the Frame: bytes stored
    past the end of the Frame land in it, the first of them in its least
    significant byte, and the bytes of it that none reaches stay. *)
Definition behind (v : Z) (spill : list byte) : Z :=
  match spill with
  | [] => v
  | _ => le_combine (firstn PTR_BYTES
                       (spill ++ skipn (List.length spill)
                                       (le_split PTR_BYTES v)))
  end.

(** The load of such a variable. *)
Definition local (v : Z) : M state Z :=
  fun s => Done (behind v (spilled s)) s.

(** ** Reading traces *)

Definition is_read (e : event) : bool :=
  match e with ERead _ _ _ => true | _ => false end.



Definition is_invoke (e : event) : bool :=
  match e with EInvoke _ _ => true | _ => false end.

(** Events that neither touch the Frame, nor take input, nor call through
    the slot. *)
Definition passive (e : event) : bool :=
  match e with
  | EStdout _ | EFlush | ESystem _ | EEnter _ | EMalloc _ | EFree => true
  | _ => false
  end.

(** A computation that only adds passive events to the trace. *)
Definition quiet (c : M state unit) : Prop :=
  forall s, exists post,
    final (c s) = State (frame s) (stdin s) (spilled s) (trace s ++ post)
    /\ forallb passive post = true.

(** What has been handed to stdout when the first byte of input is asked
    for. *)
Fixpoint printed_before_read (t : list event) : string :=
  match t with
  | [] => EmptyString
  | ERead _ _ _ :: _ => EmptyString
  | EStdout text :: rest => (text ++ printed_before_read rest)%string
  | _ :: rest => printed_before_read rest
  end.

(** How many of the lines show [needle]. *)
Definition lines_showing (needle text : string) : nat :=
  List.length (filter (found needle) (lines text)).




(** printf's %lx of an address cast to unsigned long. *)
Definition fmt_lx (a : Z) : string :=
  match a mod PTR_MAX with
  | Zpos p => HexString.Raw.of_pos p ""
  | _ => "0"
  end.

End Machine.

(* ===================================================================== *)
(** * simple/step1_overflow.c                                             *)
(* ===================================================================== *)

Module Simple.
Import Machine.
Local Open Scope proc_scope.

(** Where the linker put what the program refers to by address. *)
Record image := Image {
  safe_at      : Z;      (* the function safe *)
  win_at       : Z;      (* the function win *)
  echo_SAFE_at : Z       (* the string literal *)
}.

(** struct Frame: char buf[32], then the function pointer fn. *)
Definition Frame : list member := [char_array "buf" 32; pointer "fn"].

Definition OFF_buf : nat := offsetof Frame "buf".
Definition OFF_fn : nat := offsetof Frame "fn".

Section Program.
Variable img : image.
Variable e : env.

Definition str (p : Z) : option string :=
  if p =? echo_SAFE_at img then Some "echo SAFE" else cstr e p.

(** printf("safe path: %s\n", cmd); for a null pointer the C library
    prints (null). *)
Definition safe (cmd : Z) : M state unit :=
  enter "safe" ;;
  match str cmd with
  | Some s => printf ("safe path: " ++ s ++ LF)%string
  | None =>
      if cmd =? NULL then printf ("safe path: (null)" ++ LF)%string
      else halt (BadString cmd)
  end.

(** system(cmd); *)
Definition win (cmd : Z) : M state unit :=
  enter "win" ;; system cmd.

Definition text : code := fun a =>
  if a =? safe_at img then Some (Sig_void_cstr, safe)
  else if a =? win_at img then Some (Sig_void_cstr, win)
  else None.

(** const char *cmd = (argc > 1) ? argv[1] : "echo SAFE"; *)
Definition cmd : Z :=
  if 1 <? argc e then argv_at e 1 else echo_SAFE_at img.

(** frame and cmd are the locals of main, cmd right behind frame: the
    call loads cmd after the read, with what the read left there. *)
Definition main : M state Z :=
  store OFF_fn (safe_at img) ;;
  printf ("win() @ 0x" ++ fmt_lx (win_at img) ++ LF)%string ;;
  fflush ;;
  (* Deliberate overflow: reads more than 32 bytes. *)
  _ <- fread OFF_buf 1 200 ;;
  fn <- load OFF_fn ;;
  arg <- local cmd ;;
  icall text (cfi e) fn arg ;;
  ret 0.

Definition run : result state Z := main (boot (sizeof Frame) e).

(** The state the run ends in. *)
Definition ran : state := final run.
End Program.

(** The payload of the exploit script: filler up to the slot, then the
    address, least significant byte first. *)
Definition payload (target : Z) : list byte :=
  repeat Byte.x41 OFF_fn ++ le_split PTR_BYTES target.

End Simple.

(* ===================================================================== *)
(** * coroutines/step3_coroutine_overflow.cpp                             *)
(* ===================================================================== *)

Module Coroutine.
Import Machine.
Local Open Scope proc_scope.

Record image := Image {
  safe_resume_at : Z;
  win_at         : Z;
  echo_SAFE_at   : Z
}.

(** struct Frame: char buf[32], the function pointer resume, and the
    pointer cmd. *)
Definition Frame : list member :=
  [char_array "buf" 32; pointer "resume"; pointer "cmd"].

Definition OFF_buf : nat := offsetof Frame "buf".
Definition OFF_resume : nat := offsetof Frame "resume".
Definition OFF_cmd : nat := offsetof Frame "cmd".

(** ** The task type *)

(** The three coroutine functions; each is called once in a run. *)
Inductive coro := c1 | c2 | c3.

(** std::coroutine_handle: empty, a coroutine of the program, or
    std::noop_coroutine(). *)
Inductive handle := h_null | h_coro (c : coro) | h_noop.

(** task::promise_type and the state of a suspended coroutine. *)
Record promise_type := Promise { continuation : handle }.
Record activation := Activation { point : nat; promise : promise_type }.

(** The coroutine states that are alive. *)
Definition coros := coro -> option activation.

Definition coro_eqb (a b : coro) : bool :=
  match a, b with
  | c1, c1 | c2, c2 | c3, c3 => true
  | _, _ => false
  end.

Definition set (k : coros) (c : coro) (a : option activation) : coros :=
  fun c' => if coro_eqb c' c then a else k c'.

Definition world : Type := state * coros.

Definition lift {A} (m : M state A) : M world A :=
  fun w => match m (fst w) with
           | Done a s => Done a (s, snd w)
           | Halt why s => Halt why (s, snd w)
           end.

Definition update (f : coros -> coros) : M world unit :=
  fun w => Done tt (fst w, f (snd w)).

Definition lookup (c : coro) : M world (option activation) :=
  fun w => Done (snd w c) w.

(** Calling a coroutine function: get_return_object makes the task from
    the new promise, and initial_suspend is suspend_always, so the body
    has not started when the task is returned. *)
Definition call (c : coro) : M world handle :=
  update (fun k => set k c (Some (Activation 0 (Promise h_null)))) ;;
  ret (h_coro c).

(** task::awaiter::await_suspend: remember who waits, switch to the task. *)
Definition awaiter_await_suspend (coro_ : coro) (waiting : handle)
  : M world handle :=
  update (fun k => match k coro_ with
                   | Some a => set k coro_
                                 (Some (Activation (point a) (Promise waiting)))
                   | None => k
                   end) ;;
  ret (h_coro coro_).

(** promise_type::final_awaiter::await_suspend. *)
Definition final_awaiter_await_suspend (h : coro) : M world handle :=
  a <- lookup h ;;
  match a with
  | Some a => match continuation (promise a) with
              | h_null => ret h_noop
              | k => ret k
              end
  | None => halt BadResume
  end.

Definition suspend_at (c : coro) (n : nat) : M world unit :=
  update (fun k => match k c with
                   | Some a => set k c (Some (Activation n (promise a)))
                   | None => k
                   end).

(** The destructor of task: destroys the coroutine it owns. *)
Definition destroy (c : coro) : M world unit :=
  update (fun k => set k c None).

(** co_await of the task made by calling [child] in [parent], up to the
    suspension of [parent]. *)
Definition co_await (parent child : coro) (resume_point : nat)
  : M world handle :=
  t <- call child ;;
  suspend_at parent resume_point ;;
  awaiter_await_suspend child (h_coro parent).

(** co_return: return_void, then final_suspend. *)
Definition co_return (c : coro) (final_point : nat) : M world handle :=
  suspend_at c final_point ;;
  final_awaiter_await_suspend c.

(** One run of a coroutine body from the point it is suspended at to its
    next suspension; the handle returned is resumed next. *)
Definition body (c : coro) (at_point : nat) : M world handle :=
  match c, at_point with
  | c1, O => co_await c1 c2 1
  | c1, S O => destroy c2 ;; co_return c1 2
  | c2, O => co_await c2 c3 1
  | c2, S O => destroy c3 ;; co_return c2 2
  | c3, O =>
      lift (printf ("c3(): enter input" ++ LF)%string) ;;
      lift fflush ;;
      (* Deliberate overflow into frame->resume. *)
      _ <- lift (fread OFF_buf 1 200) ;;
      co_return c3 1
  | _, _ => halt BadResume    (* resumed at its final suspension *)
  end.

(** coroutine_handle::resume with the transfers await_suspend asks for. *)
Fixpoint resume (fuel : nat) (h : handle) : M world unit :=
  match h with
  | h_noop => ret tt
  | h_null => halt BadResume
  | h_coro c =>
      match fuel with
      | O => halt Starved
      | S fuel' =>
          a <- lookup c ;;
          match a with
          | None => halt BadResume
          | Some a => next <- body c (point a) ;; resume fuel' next
          end
      end
  end.

Section Program.
Variable img : image.
Variable e : env.

Definition str (p : Z) : option string :=
  if p =? echo_SAFE_at img then Some "echo SAFE" else cstr e p.

(** std::cout << "safe resume: " << cmd << std::endl; the insertion of
    a null pointer puts the stream into its bad state and writes nothing,
    and neither does std::endl after it. *)
Definition safe_resume (cmd : Z) : M state unit :=
  enter "safe_resume" ;;
  match str cmd with
  | Some s => printf ("safe resume: " ++ s ++ LF)%string ;; fflush
  | None =>
      if cmd =? NULL then printf "safe resume: "
      else halt (BadString cmd)
  end.

Definition win (cmd : Z) : M state unit :=
  enter "win" ;; system cmd.

Definition text : code := fun a =>
  if a =? safe_resume_at img then Some (Sig_void_cstr, safe_resume)
  else if a =? win_at img then Some (Sig_void_cstr, win)
  else None.

(** The transfers of one start(): c1, c2, c3, c2, c1. *)
Definition FUEL : nat := 5.

(** (argc > 1) ? argv[1] : "echo SAFE" *)
Definition cmd : Z :=
  if 1 <? argc e then argv_at e 1 else echo_SAFE_at img.

Definition main : M world Z :=
  lift (emit (EMalloc (sizeof Frame))) ;;
  lift (store OFF_resume (safe_resume_at img)) ;;
  lift (store OFF_cmd cmd) ;;
  lift (printf ("win() @ 0x" ++ fmt_lx (win_at img) ++ LF)%string) ;;
  lift fflush ;;
  chain <- call c1 ;;
  resume FUEL chain ;;
  fn <- lift (load OFF_resume) ;;
  arg <- lift (load OFF_cmd) ;;
  lift (icall text (cfi e) fn arg) ;;
  lift (emit EFree) ;;
  destroy c1 ;;
  ret 0.

Definition run : result world Z :=
  main (boot (sizeof Frame) e, fun _ => None).

(** The state the run ends in. *)
Definition ran : state := fst (final run).
End Program.

Definition payload (target : Z) : list byte :=
  repeat Byte.x41 OFF_resume ++ le_split PTR_BYTES target.

End Coroutine.

(* ===================================================================== *)
(** * The step-0 password variant (step0_cfi.c)                           *)
(* ===================================================================== *)

Module Step0.
Import Machine.
Local Open Scope proc_scope.

Record image := Image {
  check_password_at : Z;
  win_at            : Z
}.

(** struct Frame: char buf[32], then the function pointer auth. *)
Definition Frame : list member := [char_array "buf" 32; pointer "auth"].

Definition OFF_buf : nat := offsetof Frame "buf".
Definition OFF_auth : nat := offsetof Frame "auth".

(** The byte strcmp sees at the head of a string; the end reads as 0. *)
Definition head_byte (s : string) : Z :=
  match s with
  | EmptyString => 0
  | String c _ => Z.of_nat (nat_of_ascii c)
  end.

(** strcmp: the difference of the first bytes that differ, 0 when both
    strings end together. *)
Fixpoint strcmp (a b : string) : Z :=
  match a, b with
  | String c a', String d b' =>
      if Ascii.eqb c d
      then (if Ascii.eqb c zero then 0 else strcmp a' b')
      else head_byte a - head_byte b
  | _, _ => head_byte a - head_byte b
  end.

(** A string as C has it holds no NUL before its end. *)
Fixpoint c_string (s : string) : bool :=
  match s with
  | EmptyString => true
  | String c s' => negb (Ascii.eqb c zero) && c_string s'
  end.

Section Program.
Variable img : image.
Variable e : env.

(** printf of the AUTHENTICATED line. *)
Definition win : M state unit :=
  enter "win" ;;
  printf ("AUTHENTICATED..." ++ LF)%string.

Definition check_password (pass : Z) : M state unit :=
  enter "check_password" ;;
  match cstr e pass with
  | None => halt (BadString pass)
  | Some s =>
      if strcmp s "mypassword" =? 0
      then win
      else printf ("WRONG PASSWORD" ++ LF)%string
  end.

Definition text : code := fun a =>
  if a =? check_password_at img then Some (Sig_void_cstr, check_password)
  else if a =? win_at img then Some (Sig_void_void, fun _ => win)
  else None.

Definition main : M state Z :=
  store OFF_auth (check_password_at img) ;;
  printf ("win() @ 0x" ++ fmt_lx (win_at img) ++ LF)%string ;;
  (* buffer overflow *)
  _ <- fread OFF_buf 1 200 ;;
  fn <- load OFF_auth ;;
  icall text (cfi e) fn (argv_at e 1) ;;
  ret 0.

Definition run : result state Z := main (boot (sizeof Frame) e).

(** The state the run ends in. *)
Definition ran : state := final run.
End Program.

Definition payload (target : Z) : list byte :=
  repeat Byte.x41 OFF_auth ++ le_split PTR_BYTES target.

End Step0.

(* ===================================================================== *)
(** * What the real-time checker sees of a run                            *)
(* ===================================================================== *)

Module Rtsan.
Export Proc.

(** The function effect attributes of the source. *)
Inductive effect := nonblocking | blocking | unmarked.

Inductive memory_order := memory_order_relaxed | memory_order_seq_cst.

(** The C library entry points reached by the programs. *)
Inductive libcall :=
| pthread_mutex_lock
| pthread_mutex_unlock
| malloc (bytes : nat)
| free.

Inductive op :=
| Enter (fn : string) (attr : effect)
| Leave
| Lib (c : libcall)
| AtomicLoad (var : string) (mo : memory_order)
| AtomicStore (var : string) (v : Z) (mo : memory_order)
| Stdout (text : string)
| Sscanf (converted : Z).

Definition libcall_name (c : libcall) : string :=
  match c with
  | pthread_mutex_lock => "pthread_mutex_lock"
  | pthread_mutex_unlock => "pthread_mutex_unlock"
  | malloc _ => "malloc"
  | free => "free"
  end.

(** ** The checker *)

Inductive kind := blocking_call | unsafe_library_call.

(** A diagnostic: its kind and the call chain, offending frame first. *)
Record diagnostic := Diagnostic { d_kind : kind; d_frames : list string }.

Definition call_stack := list (string * effect).

Definition is_nonblocking (a : effect) : bool :=
  match a with nonblocking => true | _ => false end.

(** The stack is rooted in a bounded-latency context. *)
Definition realtime (st : call_stack) : bool :=
  existsb (fun f => is_nonblocking (snd f)) st.

Definition after (o : op) (st : call_stack) : call_stack :=
  match o with
  | Enter fn attr => (fn, attr) :: st
  | Leave => tl st
  | _ => st
  end.

(** Modelled from the spec: what the checker, which is no part of the
    sources, takes for a violation: the entry of a function marked blocking
    and an intercepted library call, each when the call stack is rooted in
    a non-blocking context; the diagnostic identifies the call chain. *)
Definition offence (o : op) (st : call_stack) : option diagnostic :=
  match o with
  | Enter fn blocking =>
      if realtime st
      then Some (Diagnostic blocking_call (fn :: map fst st))
      else None
  | Lib c =>
      if realtime st
      then Some (Diagnostic unsafe_library_call
                            (libcall_name c :: map fst st))
      else None
  | _ => None
  end.

(** Modelled from the spec: the violation reporter of the real-time
    checker, which is no part of the sources. It intercepts every call to a
    designated blocking primitive and, if the current call stack is rooted
    in a non-blocking context, reports a violation identifying the call
    chain, then (by default) terminates; a configuration flag allows
    continuing to enumerate further violations instead. The designated
    primitives are the functions marked blocking and the intercepted
    library calls (pthread_mutex_lock, pthread_mutex_unlock, malloc,
    free). *)
Fixpoint report (halt_on_error : bool) (st : call_stack) (ops : list op)
  : list diagnostic :=
  match ops with
  | [] => []
  | o :: rest =>
      match offence o st with
      | Some d =>
          if halt_on_error then [d]
          else d :: report halt_on_error (after o st) rest
      | None => report halt_on_error (after o st) rest
      end
  end.

(** The first offending frame a diagnostic names. *)
Definition offending_frame (d : diagnostic) : string :=
  hd "" (d_frames d).

Definition is_lib (o : op) : bool :=
  match o with Lib _ => true | _ => false end.

Definition is_blocking_entry (o : op) : bool :=
  match o with Enter _ blocking => true | _ => false end.

(** The blocking primitives: what the checker looks out for. *)
Definition designated (o : op) : bool := is_blocking_entry o || is_lib o.

End Rtsan.

(* ===================================================================== *)
(** * sanitizer/rtsan/real_time.cpp                                       *)
(* ===================================================================== *)

Module RealTime.
Import Rtsan.
Local Open Scope proc_scope.

Definition emit (o : op) : M (list op) unit := fun s => Done tt (s ++ [o]).

(** std::vector<float>: how many elements it holds and has room for. *)
Record vector := Vector { size : nat; capacity : nat }.

Definition SIZEOF_float : nat := 4.

(** resize(n): storage for n elements is allocated when the capacity
    does not suffice, and the old storage, if any, given back. *)
Definition resize (v : vector) (n : nat) : M (list op) vector :=
  if (capacity v <? n)%nat
  then emit (Lib (malloc (n * SIZEOF_float))) ;;
       (if (0 <? capacity v)%nat then emit (Lib free) else ret tt) ;;
       ret (Vector n n)
  else ret (Vector n (capacity v)).

Definition destruct_vector (v : vector) : M (list op) unit :=
  if (0 <? capacity v)%nat then emit (Lib free) else ret tt.

Definition violation : M (list op) unit :=
  emit (Enter "violation" nonblocking) ;;
  v <- resize (Vector 0 0) 100 ;;
  destruct_vector v ;;
  emit Leave.

(** float stack_buffer[100]: room in the stack frame, no call at all. *)
Definition safe_realtime_fn : M (list op) unit :=
  emit (Enter "safe_realtime_fn" nonblocking) ;;
  emit Leave.

Definition main : M (list op) Z :=
  emit (Enter "main" unmarked) ;;
  violation ;;
  emit Leave ;;
  ret 0.

Definition ops_of {A} (c : M (list op) A) : list op :=
  match c [] with
  | Done _ s => s
  | Halt _ s => s
  end.

End RealTime.

(* ===================================================================== *)
(** * sanitizer/rtsan/esp_modem_rtsan.cpp                                 *)
(* ===================================================================== *)

Module Modem.
Import Rtsan.
Import Text.
Local Open Scope proc_scope.

Inductive command_result := OK | FAIL | TIMEOUT.

(** The state of the program: the two atomic counters, the global pointer
    to the DTE, the mutex and the heap of the process, and what the run
    has done so far. *)
Record state := State {
  g_cached_rssi  : Z;
  g_cached_ber   : Z;
  g_dte          : bool;     (* g_dte points to the DTE of main *)
  internal_lock_ : nat;      (* how often the recursive mutex is held *)
  heap           : nat;      (* blocks allocated and not yet freed *)
  ops            : list op
}.

Definition emit (o : op) : M state unit :=
  fun s => Done tt (State (g_cached_rssi s) (g_cached_ber s) (g_dte s)
                          (internal_lock_ s) (heap s) (ops s ++ [o])).

Definition enter (fn : string) (attr : effect) : M state unit :=
  emit (Enter fn attr).
Definition leave : M state unit := emit Leave.
Definition printf (text : string) : M state unit := emit (Stdout text).

(** ** Section 1: the lock and its guard *)

Definition set_lock (f : nat -> nat) : M state unit :=
  fun s => Done tt (State (g_cached_rssi s) (g_cached_ber s) (g_dte s)
                          (f (internal_lock_ s)) (heap s) (ops s)).

Definition set_heap (f : nat -> nat) : M state unit :=
  fun s => Done tt (State (g_cached_rssi s) (g_cached_ber s) (g_dte s)
                          (internal_lock_ s) (f (heap s)) (ops s)).

(** Scoped(T &l) : lock_(l) { lock_.lock(); } *)
Definition Scoped : M state unit :=
  enter "Scoped<Lock>::Scoped" unmarked ;;
  emit (Lib pthread_mutex_lock) ;;
  set_lock S ;;
  leave.

(** ~Scoped() { lock_.unlock(); } *)
Definition Scoped_destructor : M state unit :=
  enter "Scoped<Lock>::~Scoped" unmarked ;;
  emit (Lib pthread_mutex_unlock) ;;
  set_lock Nat.pred ;;
  leave.

(** ** std::string: short strings live inside the object *)

(** With libstdc++ a string of up to 15 characters needs no storage of its
    own; a longer one takes it from the heap and gives it back when it is
    destroyed. The std::function objects of the program hold lambdas of one
    or two captured references, which fit into the function object. *)
Definition SSO_CAPACITY : nat := 15.

Definition on_heap (s : string) : bool :=
  (SSO_CAPACITY <? String.length s)%nat.

Definition new_string (s : string) : M state unit :=
  if on_heap s
  then emit (Lib (malloc (S (String.length s)))) ;; set_heap S
  else ret tt.

Definition delete_string (s : string) : M state unit :=
  if on_heap s
  then emit (Lib free) ;; set_heap Nat.pred
  else ret tt.

(** ** Section 3: the simulated modem *)

Definition SimModem_process (cmd : string) : M state string :=
  enter "SimModem::process" unmarked ;;
  let ok := (CR ++ LF ++ "OK" ++ CR ++ LF)%string in
  let answer :=
    if found "AT+CSQ" cmd then ("+CSQ: 18,99" ++ ok)%string
    else if found "AT+CIMI" cmd then ("310260000000000" ++ ok)%string
    else if found "AT+CGSN" cmd then ("860000000000000" ++ ok)%string
    else ok in
  new_string answer ;;
  leave ;;
  ret answer.

(** ** Section 4: the simplified DTE *)

(** got_line_cb; [X] stands for what the callback captured by reference. *)
Definition got_line_cb (X : Type) : Type :=
  option (string -> X -> M state (command_result * X)).

Definition command {X} (cmd : string) (got_line : got_line_cb X)
    (timeout_ms : Z) (captured : X) : M state (command_result * X) :=
  enter "SimpleDTE::command" blocking ;;
  Scoped ;;                                        (* blocks (mutex) *)
  response <- SimModem_process cmd ;;              (* allocates (malloc) *)
  r <- match got_line with
       | Some cb => cb response captured
       | None => ret (TIMEOUT, captured)
       end ;;
  delete_string response ;;
  Scoped_destructor ;;
  leave ;;
  ret r.

Definition generic_command (cmd pass fail : string) (timeout_ms : Z)
  : M state command_result :=
  enter "SimpleDTE::generic_command" unmarked ;;
  r <- command cmd
         (Some (fun response (_ : unit) =>
            if found pass response then ret (OK, tt)
            else if found fail response then ret (FAIL, tt)
            else ret (TIMEOUT, tt)))
         timeout_ms tt ;;
  leave ;;
  ret (fst r).

(** response.substr(0, end) *)
Definition substr (s : string) (pos n : nat) : string :=
  String.substring pos n s.

Definition generic_get_string (cmd out : string) (timeout_ms : Z)
  : M state (command_result * string) :=
  enter "SimpleDTE::generic_get_string" unmarked ;;
  r <- command cmd
         (Some (fun response (out : string) =>
            if found "OK" response then
              (* Extract payload before \r\nOK *)
              let value :=
                match find (CR ++ LF ++ "OK")%string response with
                | Some end_ => substr response 0 end_
                | None => response
                end in
              (* out = std::string(...): a temporary on the heap hands
                 its storage over and the old storage of out is given
                 back; a short one is copied into out as it is *)
              new_string value ;;
              (if on_heap value then delete_string out else ret tt) ;;
              ret (OK, value)
            else if found "ERROR" response then ret (FAIL, out)
            else ret (TIMEOUT, out)))
         timeout_ms out ;;
  leave ;;
  ret r.

Definition generic_command_with_parse {X} (cmd : string) (timeout_ms : Z)
    (parse : string -> X -> M state (bool * X)) (captured : X)
  : M state (command_result * X) :=
  enter "SimpleDTE::generic_command_with_parse" unmarked ;;
  r <- command cmd
         (Some (fun response (x : X) =>
            if found "OK" response then
              p <- parse response x ;;
              ret (OK, snd p)
            else if found "ERROR" response then ret (FAIL, x)
            else ret (TIMEOUT, x)))
         timeout_ms captured ;;
  leave ;;
  ret r.

Definition sync : M state command_result :=
  enter "SimpleDTE::sync" unmarked ;;
  new_string ("AT" ++ CR)%string ;; new_string "OK" ;; new_string "ERROR" ;;
  r <- generic_command ("AT" ++ CR)%string "OK" "ERROR" 1000 ;;
  delete_string "ERROR" ;; delete_string "OK" ;;
  delete_string ("AT" ++ CR)%string ;;
  leave ;;
  ret r.

(** *** sscanf(line, "+CSQ: %d,%d", &rssi, &ber) *)

Definition is_space (c : ascii) : bool :=
  let n := nat_of_ascii c in
  ((n =? 32) || ((9 <=? n) && (n <=? 13)))%nat.

Definition is_digit (c : ascii) : bool :=
  let n := nat_of_ascii c in ((48 <=? n) && (n <=? 57))%nat.

Fixpoint skip_space (s : string) : string :=
  match s with
  | String c rest => if is_space c then skip_space rest else s
  | EmptyString => s
  end.

Fixpoint scan_digits (s : string) (acc : Z) : Z * string :=
  match s with
  | String c rest =>
      if is_digit c
      then scan_digits rest (10 * acc + (Z.of_nat (nat_of_ascii c) - 48))
      else (acc, s)
  | EmptyString => (acc, s)
  end.

(** The conversion d: white space, an optional sign, decimal digits. *)
Definition scan_int (s : string) : option (Z * string) :=
  let s := skip_space s in
  let signed :=
    match s with
    | String "-" rest => (true, rest)
    | String "+" rest => (false, rest)
    | _ => (false, s)
    end in
  match snd signed with
  | String c _ =>
      if is_digit c
      then let r := scan_digits (snd signed) 0 in
           Some (if fst signed then - fst r else fst r, snd r)
      else None
  | EmptyString => None
  end.

(** The ordinary characters of a format must be there one by one. *)
Fixpoint scan_literal (lit s : string) : option string :=
  match lit, s with
  | EmptyString, _ => Some s
  | String a lit', String b s' =>
      if Ascii.eqb a b then scan_literal lit' s' else None
  | String _ _, EmptyString => None
  end.

(** The number of conversions made, with the values stored; an input
    that ends before the first conversion counts as no conversion. *)
Definition sscanf_CSQ (line : string) (rssi ber : Z) : Z * (Z * Z) :=
  match scan_literal "+CSQ:" line with
  | None => (0, (rssi, ber))
  | Some r =>
      match scan_int (skip_space r) with
      | None => (0, (rssi, ber))
      | Some (a, r) =>
          match scan_literal "," r with
          | None => (1, (a, ber))
          | Some r =>
              match scan_int r with
              | None => (1, (a, ber))
              | Some (b, _) => (2, (a, b))
              end
          end
      end
  end.

Definition get_signal_quality (rssi ber : Z)
  : M state (command_result * (Z * Z)) :=
  enter "SimpleDTE::get_signal_quality" unmarked ;;
  new_string ("AT+CSQ" ++ CR)%string ;;
  r <- generic_command_with_parse ("AT+CSQ" ++ CR)%string 1000
         (fun line (x : Z * Z) =>
            let got := sscanf_CSQ line (fst x) (snd x) in
            emit (Sscanf (fst got)) ;;
            ret (fst got =? 2, snd got))
         (rssi, ber) ;;
  delete_string ("AT+CSQ" ++ CR)%string ;;
  leave ;;
  ret r.

Definition get_imsi (imsi : string) : M state (command_result * string) :=
  enter "SimpleDTE::get_imsi" unmarked ;;
  new_string ("AT+CIMI" ++ CR)%string ;;
  r <- generic_get_string ("AT+CIMI" ++ CR)%string imsi 1000 ;;
  delete_string ("AT+CIMI" ++ CR)%string ;;
  leave ;;
  ret r.

(** ** Section 5: the real-time callbacks *)

Definition load_rssi (mo : memory_order) : M state Z :=
  fun s => Done (g_cached_rssi s)
                (State (g_cached_rssi s) (g_cached_ber s) (g_dte s)
                       (internal_lock_ s) (heap s)
                       (ops s ++ [AtomicLoad "g_cached_rssi" mo])).

Definition load_ber (mo : memory_order) : M state Z :=
  fun s => Done (g_cached_ber s)
                (State (g_cached_rssi s) (g_cached_ber s) (g_dte s)
                       (internal_lock_ s) (heap s)
                       (ops s ++ [AtomicLoad "g_cached_ber" mo])).

Definition store_rssi (v : Z) : M state unit :=
  fun s => Done tt
                (State v (g_cached_ber s) (g_dte s)
                       (internal_lock_ s) (heap s)
                       (ops s ++ [AtomicStore "g_cached_rssi" v
                                              memory_order_seq_cst])).

Definition store_ber (v : Z) : M state unit :=
  fun s => Done tt
                (State (g_cached_rssi s) v (g_dte s)
                       (internal_lock_ s) (heap s)
                       (ops s ++ [AtomicStore "g_cached_ber" v
                                              memory_order_seq_cst])).

Definition set_g_dte (b : bool) : M state unit :=
  fun s => Done tt (State (g_cached_rssi s) (g_cached_ber s) b
                          (internal_lock_ s) (heap s) (ops s)).

Definition rt_timer_callback_safe : M state unit :=
  enter "rt_timer_callback_safe" nonblocking ;;
  rssi <- load_rssi memory_order_relaxed ;;
  ber <- load_ber memory_order_relaxed ;;
  leave.

Definition rt_timer_callback_unsafe : M state unit :=
  enter "rt_timer_callback_unsafe" nonblocking ;;
  fun s =>
    (if g_dte s
     then (r <- get_signal_quality 0 0 ;;    (* BUG: blocks in RT context! *)
           store_rssi (fst (snd r)) ;;
           store_ber (snd (snd r)) ;;
           leave)
     else halt NullDeref) s.

(** ** Section 6: main *)

Definition result_str (r : command_result) : string :=
  match r with
  | OK => "OK"
  | FAIL => "FAIL"
  | TIMEOUT => "TIMEOUT"
  end.

(** printf's d conversion. *)
Definition fmt_d (z : Z) : string := NilZero.string_of_int (Z.to_int z).

Definition RULE : string :=
  "===========================================================".

Definition main : M state Z :=
  enter "main" unmarked ;;
  printf (RULE ++ LF) ;;
  printf ("  esp_modem Real-Time Sanitizer (RTSan) Demo" ++ LF) ;;
  printf ("  Clang 20 -fsanitize=realtime" ++ LF) ;;
  printf (RULE ++ LF ++ LF) ;;
  set_g_dte true ;;
  printf ("[task] Sending AT sync command..." ++ LF) ;;
  r <- sync ;;
  printf ("[task] AT sync: " ++ result_str r ++ LF ++ LF) ;;
  printf ("[task] Querying signal quality (AT+CSQ)..." ++ LF) ;;
  q <- get_signal_quality 0 0 ;;
  let rssi := fst (snd q) in
  let ber := snd (snd q) in
  printf ("[task] Signal quality: RSSI=" ++ fmt_d rssi ++ ", BER="
            ++ fmt_d ber ++ "  (" ++ result_str (fst q) ++ ")" ++ LF) ;;
  printf ("[task] Reading IMSI (AT+CIMI)..." ++ LF) ;;
  i <- get_imsi "" ;;
  printf ("[task] IMSI: " ++ snd i ++ "  (" ++ result_str (fst i) ++ ")"
            ++ LF ++ LF) ;;
  store_rssi rssi ;;
  store_ber ber ;;
  printf ("[rt]   Safe timer callback (reads cached atomic)..." ++ LF) ;;
  rt_timer_callback_safe ;;
  printf ("[rt]   OK -- no RTSan violation" ++ LF ++ LF) ;;
  printf ("[rt]   Unsafe timer callback (calls AT+CSQ from RT context)..."
            ++ LF) ;;
  printf ("[rt]   RTSan should report a violation here:" ++ LF ++ LF) ;;
  rt_timer_callback_unsafe ;;
  printf (LF ++ "[rt]   (unreachable with RTSan -- "
             ++ "if you see this, RTSan is off)" ++ LF) ;;
  set_g_dte false ;;
  delete_string (snd i) ;;
  leave ;;
  ret 0.

Definition boot : state := State 0 0 false 0 0 [].

Definition ops_of {A} (r : result state A) : list op :=
  match r with
  | Done _ s => ops s
  | Halt _ s => ops s
  end.

(** What a computation started in state [s] does, and nothing before it. *)
Definition log_of {A} (c : M state A) (s : state) : list op :=
  ops_of (c (State (g_cached_rssi s) (g_cached_ber s) (g_dte s)
                   (internal_lock_ s) (heap s) [])).

End Modem.

(* ===================================================================== *)
(** * Concrete runs                                                       *)
(* ===================================================================== *)

Module Lab.
Import Machine.

(** A non-PIE link: the functions in .text, the literal in .rodata. *)
Definition simple_image : Simple.image :=
  Simple.Image 0x401136 0x401156 0x402004.

Definition coroutine_image : Coroutine.image :=
  Coroutine.Image 0x401256 0x401296 0x402010.

Definition step0_image : Step0.image :=
  Step0.Image 0x401146 0x401136.

(** The argument strings on the stack of the new process. *)
Definition strings (p : Z) : option string :=
  if p =? 0x7ffe4000 then Some "./victim"
  else if p =? 0x7ffe5000 then Some "id"
  else if p =? 0x7ffe6000 then Some "mypassword"
  else None.

Definition with_argument : list Z := [0x7ffe4000; 0x7ffe5000].
Definition without_argument : list Z := [0x7ffe4000].

(** The exploit against the simple victim, built without enforcement. *)
Definition simple_attack : env :=
  Env with_argument strings (Simple.payload 0x401156) [] false.

(** A short input: ten bytes, then end-of-file. *)
Definition short_input : list byte := repeat Byte.x42 10.

Definition short_run : env :=
  Env with_argument strings short_input [] false.

(** The same run started without an argument. *)
Definition bare_run : env :=
  Env without_argument strings short_input [] false.

(** The step-0 victim under attack, with its argument, built with and
    without the integrity check. *)
Definition step0_attack (enforced : bool) : env :=
  Env with_argument strings (Step0.payload 0x401136) [] enforced.

(** The step-0 victim started with no argument and an empty input. *)
Definition step0_bare : env :=
  Env without_argument strings [] [] false.

(** A payload for the coroutine victim that runs on into the cmd member:
    the slot keeps pointing to safe_resume, cmd is made to point elsewhere. *)
Definition coroutine_long : env :=
  Env with_argument strings
      (repeat Byte.x41 32 ++ le_split 8 0x401256 ++ le_split 8 0x7ffe6000)
      [] false.

(** The modem demo at the point where main calls the callbacks. *)
Definition modem_armed : Modem.state := Modem.State 18 99 true 0 0 [].

End Lab.

(* ===================================================================== *)
(** * More concrete runs                                                  *)
(* ===================================================================== *)

Module Bench.
Import Machine.

(** One byte too many: 32 bytes of filler and the byte 0x56. *)
Definition one_byte_over : env :=
  Env Lab.with_argument Lab.strings (repeat Byte.x41 32 ++ [Byte.x56]) []
      false.

(** The exploit against the simple victim, built with the integrity check. *)
Definition simple_attack_checked : env :=
  Env Lab.with_argument Lab.strings (Simple.payload 0x401156) [] true.

(** The exploit against the coroutine victim, with and without the check. *)
Definition coroutine_attack (enforced : bool) : env :=
  Env Lab.with_argument Lab.strings (Coroutine.payload 0x401296) [] enforced.

(** The step-0 victim under attack and started without an argument. *)
Definition step0_attack_bare : env :=
  Env Lab.without_argument Lab.strings (Step0.payload 0x401136) [] false.

(** A payload for the simple victim that runs on into the local cmd
    behind the Frame: the slot keeps pointing to safe, cmd is made to point
    elsewhere. *)
Definition simple_long : env :=
  Env Lab.with_argument Lab.strings
      (repeat Byte.x41 32 ++ le_split 8 0x401136 ++ le_split 8 0x7ffe6000)
      [] false.


(** The modem demo with the mutex held once and three blocks allocated. *)
Definition modem_busy : Modem.state := Modem.State 7 7 true 1 3 [].

End Bench.

(* ===================================================================== *)
(** * Facts about texts                                                   *)
(* ===================================================================== *)

Module TextFacts.
Import Text Machine.

Lemma append_assoc (a b c : string) :
  ((a ++ b) ++ c = a ++ b ++ c)%string.
Proof. induction a as [|x a IH]; cbn; [reflexivity | now rewrite IH]. Qed.

Lemma append_nil_r (a : string) : (a ++ "" = a)%string.
Proof. induction a as [|x a IH]; cbn; [reflexivity | now rewrite IH]. Qed.

Lemma starts_with_here n r : starts_with n (n ++ r) = true.
Proof.
  induction n as [|x n IH]; cbn; [reflexivity|].
  now rewrite Ascii.eqb_refl.
Qed.

Lemma find_hit n s : starts_with n s = true -> find n s = Some 0%nat.
Proof. intros H. destruct s; cbn [find]; now rewrite H. Qed.

Lemma found_here n r : found n (n ++ r) = true.
Proof. unfold found. now rewrite find_hit by apply starts_with_here. Qed.

Lemma found_step n c r : found n r = true -> found n (String c r) = true.
Proof.
  unfold found. cbn [find]. intros H.
  destruct (starts_with n (String c r)); [reflexivity|].
  destruct (find n r); [reflexivity | discriminate].
Qed.

Lemma found_later n p r : found n r = true -> found n (p ++ r) = true.
Proof.
  intros H. induction p as [|x p IH]; [exact H|].
  cbn [append]. now apply found_step.
Qed.

Lemma found_absent c n s : has_char c s = false -> found (String c n) s = false.
Proof.
  unfold found. induction s as [|d s IH]; [reflexivity|].
  cbn [has_char find starts_with]. intros H.
  apply orb_false_iff in H as [H1 H2]. rewrite H1. cbn [andb].
  specialize (IH H2). destruct (find (String c n) s); [discriminate|].
  reflexivity.
Qed.

Lemma has_char_app c a b :
  has_char c (a ++ b) = has_char c a || has_char c b.
Proof.
  induction a as [|x a IH]; cbn; [reflexivity|].
  now rewrite IH, orb_assoc.
Qed.

Lemma lines_first a r :
  has_char (ascii_of_nat 10) a = false ->
  lines (a ++ LF ++ r) = a :: lines r.
Proof.
  induction a as [|x a IH]; intros H.
  - reflexivity.
  - cbn [has_char] in H. apply orb_false_iff in H as [H1 H2].
    cbn [append lines]. rewrite Ascii.eqb_sym, H1.
    now rewrite (IH H2).
Qed.

Lemma showing_first needle a r :
  has_char (ascii_of_nat 10) a = false ->
  lines_showing needle (a ++ LF ++ r)
  = ((if found needle a then 1 else 0) + lines_showing needle r)%nat.
Proof.
  intros H. unfold lines_showing. rewrite (lines_first a r H).
  cbn [filter]. now destruct (found needle a).
Qed.

(** The digits of a number written in hexadecimal hold no line feed. *)
Lemma of_pos_one_line : forall (p : positive) (rest : string),
  has_char (ascii_of_nat 10) rest = false ->
  has_char (ascii_of_nat 10) (HexString.Raw.of_pos p rest) = false.
Proof.
  fix IH 1. intros p rest.
  do 4 try destruct p as [p|p|]; intros H; cbn [HexString.Raw.of_pos];
    try (apply IH); cbn; exact H.
Qed.

Lemma fmt_lx_one_line a : has_char (ascii_of_nat 10) (fmt_lx a) = false.
Proof.
  unfold fmt_lx. destruct (a mod PTR_MAX); try reflexivity.
  now apply of_pos_one_line.
Qed.

(** What fmt_lx writes behind 0x is the address, taken as an unsigned long,
    in the hexadecimal notation of the Standard Library. *)
Lemma fmt_lx_is_hex a :
  ("0x" ++ fmt_lx a)%string = HexString.of_Z (a mod PTR_MAX).
Proof.
  unfold fmt_lx.
  assert (H : 0 <= a mod PTR_MAX) by (apply Z.mod_pos_bound; reflexivity).
  destruct (a mod PTR_MAX); [reflexivity | reflexivity | lia].
Qed.

Lemma of_Z_one_line a :
  has_char (ascii_of_nat 10) (HexString.of_Z (a mod PTR_MAX)) = false.
Proof.
  rewrite <- fmt_lx_is_hex. cbn [append has_char].
  rewrite fmt_lx_one_line. reflexivity.
Qed.

(** The line that leaks the address shows it, and is one line. *)
Lemma leak_line_shows a r :
  lines_showing ("0x" ++ fmt_lx a) (("win() @ 0x" ++ fmt_lx a ++ LF) ++ r)
  = S (lines_showing ("0x" ++ fmt_lx a) r).
Proof.
  change ("win() @ 0x" ++ fmt_lx a ++ LF)%string
    with ("win() @ " ++ ("0x" ++ fmt_lx a) ++ LF)%string.
  rewrite <- (append_assoc "win() @ "), append_assoc.
  rewrite showing_first.
  - rewrite found_later; [reflexivity|].
    rewrite <- (append_nil_r ("0x" ++ fmt_lx a)) at 2. apply found_here.
  - rewrite !has_char_app, fmt_lx_one_line. reflexivity.
Qed.

End TextFacts.

(* ===================================================================== *)
(** * Facts about the memory operations and about traces                  *)
(* ===================================================================== *)

Module MemoryFacts.
Import Machine.

Lemma length_uninit n junk : List.length (uninit n junk) = n.
Proof.
  unfold uninit. rewrite length_firstn, length_app, repeat_length. lia.
Qed.

Lemma length_write m off d :
  (off <= List.length m)%nat -> List.length (write m off d) = List.length m.
Proof.
  intros H. unfold write.
  rewrite !length_app, !length_firstn, length_skipn. lia.
Qed.

Lemma length_write_ptr m off v :
  (off <= List.length m)%nat -> List.length (write_ptr m off v) = List.length m.
Proof. apply length_write. Qed.

Lemma skipn_same_past {A} (l : list A) a b :
  (a = b \/ (List.length l <= a /\ List.length l <= b))%nat ->
  skipn a l = skipn b l.
Proof.
  intros [-> | [Ha Hb]]; [reflexivity|].
  rewrite !skipn_all2 by lia. reflexivity.
Qed.

(** A write that ends at or before [k] leaves everything from [k] on. *)
Lemma skipn_write_before m d k :
  (List.length d <= k)%nat -> skipn k (write m 0 d) = skipn k m.
Proof.
  intros H. unfold write. cbn [firstn app Nat.add].
  rewrite skipn_app, length_firstn, skipn_skipn.
  rewrite (skipn_all2 (firstn _ d)) by (rewrite length_firstn; lia).
  cbn [app]. apply skipn_same_past. lia.
Qed.

(** A write that covers the whole object replaces it. *)
Lemma write_covering m d :
  (List.length m <= List.length d)%nat ->
  write m 0 d = firstn (List.length m) d.
Proof.
  intros H. unfold write. cbn [firstn app Nat.add].
  rewrite Nat.sub_0_r, (skipn_all2 m) by lia. apply app_nil_r.
Qed.

Lemma overrun_fits m off d :
  (off + List.length d <= List.length m)%nat -> overrun m off d = [].
Proof. intros H. unfold overrun. apply skipn_all2. lia. Qed.

Lemma read_ptr_write_before m d off :
  (List.length d <= off)%nat -> read_ptr (write m 0 d) off = read_ptr m off.
Proof.
  intros H. unfold read_ptr. now rewrite skipn_write_before.
Qed.

Lemma le_combine_split_ptr v :
  is_ptr v -> le_combine (le_split PTR_BYTES v) = v.
Proof.
  intros H. rewrite le_combine_split. apply Z.mod_small. exact H.
Qed.

(** What was stored in a slot is what is read back from it. *)
Lemma read_ptr_write_ptr m off v :
  is_ptr v -> (off + PTR_BYTES <= List.length m)%nat ->
  read_ptr (write_ptr m off v) off = v.
Proof.
  intros Hv H. unfold read_ptr, write_ptr, write.
  pose proof (length_le_split PTR_BYTES v) as Hd.
  rewrite (firstn_all2 (n := (List.length m - off)%nat)) by lia.
  rewrite skipn_app, length_firstn, Nat.min_l by lia.
  rewrite (skipn_all2 (firstn off m)) by (rewrite length_firstn; lia).
  rewrite Nat.sub_diag. cbn [skipn app].
  rewrite firstn_app, Hd, Nat.sub_diag.
  rewrite firstn_all2 by lia. cbn [firstn]. rewrite app_nil_r.
  now apply le_combine_split_ptr.
Qed.

(** A write further on leaves a pointer before it as it was. *)
Lemma read_ptr_write_after m off d k :
  (k + PTR_BYTES <= off)%nat -> (off <= List.length m)%nat ->
  read_ptr (write m off d) k = read_ptr m k.
Proof.
  intros H1 H2. unfold read_ptr, write. f_equal.
  rewrite skipn_app, firstn_app.
  rewrite length_skipn, length_firstn, Nat.min_l by lia.
  replace (PTR_BYTES - (off - k))%nat with 0%nat by lia.
  cbn [firstn]. rewrite app_nil_r.
  rewrite skipn_firstn_comm, firstn_firstn. f_equal. lia.
Qed.

Lemma read_ptr_write_ptr_after m off v k :
  (k + PTR_BYTES <= off)%nat -> (off <= List.length m)%nat ->
  read_ptr (write_ptr m off v) k = read_ptr m k.
Proof. apply read_ptr_write_after. Qed.

Lemma stored_bytes m d :
  firstn (List.length d) (write m 0 d) ++ overrun m 0 d = d.
Proof.
  unfold write, overrun. cbn [firstn app Nat.add]. rewrite Nat.sub_0_r.
  destruct (Nat.le_gt_cases (List.length d) (List.length m)) as [H | H].
  - rewrite (firstn_all2 (n := List.length m)) by lia.
    rewrite firstn_app, Nat.sub_diag, firstn_all. cbn [firstn].
    rewrite (skipn_all2 d) by lia. now rewrite !app_nil_r.
  - rewrite (skipn_all2 m) by lia. rewrite app_nil_r.
    rewrite firstn_all2 by (rewrite length_firstn; lia).
    apply firstn_skipn.
Qed.

(** ** Computations *)

Lemma final_bind_ret {S A B} (c : M S A) (b : B) s :
  final (bind c (fun _ => ret b) s) = final (c s).
Proof. unfold bind, ret. now destruct (c s). Qed.

Lemma quiet_ret : quiet (ret tt).
Proof.
  intros s. exists []. rewrite app_nil_r. now destruct s.
Qed.

Lemma quiet_halt w : quiet (halt w).
Proof.
  intros s. exists []. rewrite app_nil_r. now destruct s.
Qed.

Lemma quiet_emit e : passive e = true -> quiet (emit e).
Proof.
  intros H s. exists [e]. cbn. now rewrite H.
Qed.

Lemma quiet_bind (c k : M state unit) :
  quiet c -> quiet k -> quiet (bind c (fun _ => k)).
Proof.
  intros Hc Hk s. unfold bind.
  destruct (Hc s) as (p1 & E1 & P1).
  destruct (c s) as [[] s1 | w s1]; cbn [final] in E1; subst s1.
  - destruct (Hk (State (frame s) (stdin s) (spilled s) (trace s ++ p1)))
      as (p2 & E2 & P2).
    exists (p1 ++ p2). cbn [frame stdin spilled trace] in E2.
    rewrite E2, app_assoc, forallb_app, P1, P2. auto.
  - exists p1. auto.
Qed.

Lemma quiet_system cmd : quiet (system cmd).
Proof. unfold system. now apply quiet_emit. Qed.

(** A variable behind the Frame that no byte reaches keeps its value, and
    one that eight bytes or more reach holds the first eight of them. *)
Lemma behind_untouched v : behind v [] = v.
Proof. reflexivity. Qed.


(** A call through the slot adds the invocation and what the target does. *)
Lemma icall_resolved text cfi target arg sg body s :
  text target = Some (sg, body) ->
  cfi && negb (signature_eqb sg Sig_void_cstr) = false ->
  icall text cfi target arg s
  = body arg (State (frame s) (stdin s) (spilled s)
                    (trace s ++ [EInvoke target arg])).
Proof.
  intros H1 H2. unfold icall, bind, emit. now rewrite H1, H2.
Qed.

Lemma icall_quiet (text : code) cfi target arg :
  (forall a sg body x, text a = Some (sg, body) -> quiet (body x)) ->
  forall s, exists post,
    final (icall text cfi target arg s)
    = State (frame s) (stdin s) (spilled s)
            (trace s ++ EInvoke target arg :: post)
    /\ forallb passive post = true.
Proof.
  intros Hq s. unfold icall, bind, emit.
  destruct (text target) as [[sg body]|] eqn:E.
  - destruct (cfi && negb (signature_eqb sg Sig_void_cstr)).
    + exists []. auto.
    + destruct (Hq _ _ _ arg E
                  (State (frame s) (stdin s) (spilled s)
                         (trace s ++ [EInvoke target arg])))
        as (post & E1 & P1).
      exists post. cbn [frame stdin spilled trace] in E1.
      now rewrite E1, <- app_assoc.
  - exists []. now destruct cfi.
Qed.

Lemma passive_filter (p : event -> bool) l :
  (forall e, passive e = true -> p e = false) ->
  forallb passive l = true -> filter p l = [].
Proof.
  intros Hp. induction l as [|e l IH]; [reflexivity|].
  cbn [forallb filter]. intros H. apply andb_true_iff in H as [H1 H2].
  now rewrite (Hp e H1), IH.
Qed.

Lemma passive_no_read l : forallb passive l = true -> filter is_read l = [].
Proof. apply passive_filter. now intros []. Qed.

Lemma passive_no_invoke l :
  forallb passive l = true -> filter is_invoke l = [].
Proof. apply passive_filter. now intros []. Qed.

End MemoryFacts.

(* ===================================================================== *)
(** * The simple victim                                                   *)
(* ===================================================================== *)

Module SimpleFacts.
Import Machine MemoryFacts Simple.
Local Open Scope proc_scope.

Lemma simple_layout : OFF_buf = 0%nat /\ OFF_fn = 32%nat /\ sizeof Frame = 40%nat
               /\ member_size Frame "buf" = 32%nat.
Proof. repeat split. Qed.

Lemma quiet_safe img e c : quiet (safe img e c).
Proof.
  unfold safe. apply quiet_bind; [now apply quiet_emit|].
  destruct (str img e c); [now apply quiet_emit|].
  destruct (c =? NULL); [now apply quiet_emit | apply quiet_halt].
Qed.

Lemma simple_quiet_win c : quiet (win c).
Proof.
  unfold win. apply quiet_bind; [now apply quiet_emit | apply quiet_system].
Qed.

Lemma simple_quiet_text img e a sg body x :
  text img e a = Some (sg, body) -> quiet (body x).
Proof.
  unfold text. intros H.
  destruct (a =? safe_at img); [injection H as <- <-; apply quiet_safe|].
  destruct (a =? win_at img); [injection H as <- <-; apply simple_quiet_win|].
  discriminate.
Qed.

(** The Frame after the read, and the run up to the call through the slot. *)
Lemma simple_run_steps img e :
  let d := firstn 200 (input e) in
  let m1 := write_ptr (uninit 40 (junk e)) 32 (safe_at img) in
  let fr := write m1 0 d in
  let fn := read_ptr fr 32 in
  run img e
  = (icall (text img e) (cfi e) fn (behind (cmd img e) (overrun m1 0 d)) ;;
     ret 0)
      (State fr (skipn 200 (input e)) (overrun m1 0 d)
         [EStore 32 (safe_at img);
          EStdout ("win() @ 0x" ++ fmt_lx (win_at img) ++ LF)%string;
          EFlush; ERead 0 200 (List.length d); ELoad 32 fn]).
Proof. reflexivity. Qed.

(** What every run of the simple victim looks like. *)
Lemma simple_shape img e :
  let d := firstn 200 (input e) in
  let m1 := write_ptr (uninit 40 (junk e)) 32 (safe_at img) in
  let fr := write m1 0 d in
  exists post,
    ran img e
    = State fr (skipn 200 (input e)) (overrun m1 0 d)
        ([EStore 32 (safe_at img);
          EStdout ("win() @ 0x" ++ fmt_lx (win_at img) ++ LF)%string;
          EFlush; ERead 0 200 (List.length d); ELoad 32 (read_ptr fr 32)]
         ++ EInvoke (read_ptr fr 32) (behind (cmd img e) (overrun m1 0 d))
            :: post)
    /\ forallb passive post = true.
Proof.
  cbv zeta. unfold ran. rewrite simple_run_steps. cbv zeta.
  rewrite final_bind_ret.
  match goal with
  | |- context [icall ?t ?c ?f ?a ?s] =>
      destruct (icall_quiet t c f a (simple_quiet_text img e) s) as (post & E & P)
  end.
  exists post. split; [exact E | exact P].
Qed.

Lemma length_initialised junk v :
  List.length (write_ptr (uninit 40 junk) 32 v) = 40%nat.
Proof.
  rewrite length_write_ptr; rewrite length_uninit; [reflexivity | lia].
Qed.

Lemma length_payload v : List.length (payload v) = 40%nat.
Proof.
  unfold payload. now rewrite length_app, repeat_length, length_le_split.
Qed.

Lemma read_ptr_payload v : is_ptr v -> read_ptr (payload v) 32 = v.
Proof.
  intros H. unfold read_ptr, payload.
  rewrite skipn_app, repeat_length.
  rewrite skipn_all2 by (rewrite repeat_length; apply Nat.le_refl).
  change (32 - OFF_fn)%nat with 0%nat. cbn [skipn app].
  rewrite firstn_all2 by (rewrite length_le_split; apply Nat.le_refl).
  now apply le_combine_split_ptr.
Qed.

Lemma cmd_readable img e :
  readable_args e -> str img e (cmd img e) <> None.
Proof.
  intros H. unfold str, cmd, argv_at, argc.
  destruct (1 <? Z.of_nat (List.length (argv e))) eqn:E.
  - destruct (_ =? echo_SAFE_at img); [discriminate|].
    apply Z.ltb_lt in E.
    unfold readable_args in H. rewrite Forall_forall in H.
    apply H, nth_In. lia.
  - now rewrite Z.eqb_refl.
Qed.

(** C1: in the simple victim (a 32-byte buffer immediately followed by the
    8-byte slot), the payload of 32 filler bytes 'A' followed by the
    little-endian 8-byte address of win leaves that address in the slot;
    the invocation that follows transfers control to win with the command
    string as its argument, and without enforcement the process returns
    exit code 0. *)
Theorem simple_payload_reaches_win img e :
  is_ptr (win_at img) ->
  win_at img <> safe_at img ->
  readable_args e ->
  cfi e = false ->
  input e = repeat Byte.x41 32 ++ le_split 8 (win_at img) ->
  (member_size Frame "buf" = 32%nat /\ OFF_fn = 32%nat
   /\ sizeof Frame = (OFF_fn + 8)%nat)
  /\ exists s,
    run img e = Done 0 s
    /\ read_ptr (frame s) OFF_fn = win_at img
    /\ spilled s = []
    /\ trace s =
         [EStore OFF_fn (safe_at img);
          EStdout ("win() @ 0x" ++ fmt_lx (win_at img) ++ LF)%string;
          EFlush;
          ERead OFF_buf 200 40;
          ELoad OFF_fn (win_at img);
          EInvoke (win_at img) (cmd img e);
          EEnter "win";
          ESystem (cmd img e)].
Proof.
  intros Hw Hne Hargs Hcfi Hin. split; [repeat split|].
  change (input e = payload (win_at img)) in Hin.
  pose proof (length_payload (win_at img)) as Hl.
  rewrite simple_run_steps. cbv zeta. rewrite Hin, Hcfi.
  rewrite (firstn_all2 (n := 200%nat)) by (rewrite Hl; lia).
  rewrite write_covering by (rewrite length_initialised, Hl; lia).
  rewrite length_initialised.
  rewrite (firstn_all2 (n := 40%nat)) by (rewrite Hl; lia).
  rewrite overrun_fits by (rewrite length_initialised, Hl; lia).
  rewrite behind_untouched.
  rewrite read_ptr_payload, Hl by assumption.
  unfold bind at 1.
  rewrite (icall_resolved (text img e) false (win_at img) (cmd img e)
             Sig_void_cstr win).
  2:{ unfold text. apply Z.eqb_neq in Hne. now rewrite Hne, Z.eqb_refl. }
  2:{ reflexivity. }
  unfold win, system, enter, emit, bind, ret.
  cbn [frame stdin spilled trace app].
  eexists; split; [reflexivity|]; cbn [frame spilled trace];
    repeat split; now apply read_ptr_payload.
Qed.

(** A run of the exploit against a concrete image. *)
Lemma simple_payload_reaches_win_witness :
  exists s,
    run Lab.simple_image Lab.simple_attack = Done 0 s
    /\ read_ptr (frame s) OFF_fn = 0x401156
    /\ spilled s = []
    /\ trace s =
         [EStore OFF_fn 0x401136;
          EStdout ("win() @ 0x" ++ fmt_lx 0x401156 ++ LF)%string;
          EFlush;
          ERead OFF_buf 200 40;
          ELoad OFF_fn 0x401156;
          EInvoke 0x401156 0x7ffe5000;
          EEnter "win";
          ESystem 0x7ffe5000].
Proof.
  apply (proj2 (simple_payload_reaches_win Lab.simple_image Lab.simple_attack
                  ltac:(unfold is_ptr, PTR_MAX; simpl; lia)
                  ltac:(simpl; lia)
                  ltac:(repeat constructor; simpl; discriminate)
                  eq_refl eq_refl)).
Defined.

End SimpleFacts.

(* ===================================================================== *)
(** * The coroutine victim                                                *)
(* ===================================================================== *)

Module CoroutineFacts.
Import Machine MemoryFacts Coroutine.
Local Open Scope proc_scope.

Lemma coroutine_layout : OFF_buf = 0%nat /\ OFF_resume = 32%nat /\ OFF_cmd = 40%nat
               /\ sizeof Frame = 48%nat /\ member_size Frame "buf" = 32%nat.
Proof. repeat split. Qed.

Lemma quiet_safe_resume img e c : quiet (safe_resume img e c).
Proof.
  unfold safe_resume. apply quiet_bind; [now apply quiet_emit|].
  destruct (str img e c);
    [| destruct (c =? NULL); [now apply quiet_emit | apply quiet_halt]].
  apply quiet_bind; now apply quiet_emit.
Qed.

Lemma coroutine_quiet_win c : quiet (win c).
Proof.
  unfold win. apply quiet_bind; [now apply quiet_emit | apply quiet_system].
Qed.

Lemma coroutine_quiet_text img e a sg body x :
  text img e a = Some (sg, body) -> quiet (body x).
Proof.
  unfold text. intros H.
  destruct (a =? safe_resume_at img);
    [injection H as <- <-; apply quiet_safe_resume|].
  destruct (a =? win_at img); [injection H as <- <-; apply coroutine_quiet_win|].
  discriminate.
Qed.

(** start() runs c1, c2 and c3 to their ends with the fuel given: the run
    arrives at the call through the slot, with one read behind it. *)
Lemma coroutine_run_steps img e :
  let d := firstn 200 (input e) in
  let m1 := write_ptr (write_ptr (uninit 48 (junk e)) 32 (safe_resume_at img))
                      40 (cmd img e) in
  let fr := write m1 0 d in
  let fn := read_ptr fr 32 in
  let arg := read_ptr fr 40 in
  exists k,
    run img e
    = (lift (icall (text img e) (cfi e) fn arg) ;;
       lift (emit EFree) ;; destroy c1 ;; ret 0)
        (State fr (skipn 200 (input e)) (overrun m1 0 d)
           [EMalloc 48;
            EStore 32 (safe_resume_at img);
            EStore 40 (cmd img e);
            EStdout ("win() @ 0x" ++ fmt_lx (win_at img) ++ LF)%string;
            EFlush;
            EStdout ("c3(): enter input" ++ LF)%string;
            EFlush;
            ERead 0 200 (List.length d);
            ELoad 32 fn;
            ELoad 40 arg],
         k).
Proof.
  cbv zeta. unfold run, main.
  change (sizeof Frame) with 48%nat.
  change OFF_resume with 32%nat. change OFF_cmd with 40%nat.
  change OFF_buf with 0%nat.
  cbv [bind lift ret call update lookup resume FUEL body co_await co_return
       suspend_at destroy awaiter_await_suspend final_awaiter_await_suspend
       set coro_eqb fst snd emit store load printf fflush fread boot
       point promise continuation frame stdin spilled trace app
       Nat.mul Nat.add].
  eexists. reflexivity.
Qed.

(** After the call through the slot the Frame is freed, if the call came
    back at all. *)
Lemma epilogue (c : M state unit) s k :
  exists tail,
    fst (final ((lift c ;; lift (emit EFree) ;; destroy c1 ;; ret 0) (s, k)))
    = State (frame (final (c s))) (stdin (final (c s)))
            (spilled (final (c s))) (trace (final (c s)) ++ tail)
    /\ forallb passive tail = true.
Proof.
  unfold bind, lift, emit, destroy, update, ret. cbn [fst snd].
  destruct (c s) as [[] s1 | w s1]; cbn [fst final frame stdin spilled trace].
  - exists [EFree]. auto.
  - exists []. rewrite app_nil_r. now destruct s1.
Qed.


(** What every run of the coroutine victim looks like. *)
Lemma coroutine_shape img e :
  let d := firstn 200 (input e) in
  let m1 := write_ptr (write_ptr (uninit 48 (junk e)) 32 (safe_resume_at img))
                      40 (cmd img e) in
  let fr := write m1 0 d in
  exists post,
    ran img e
    = State fr (skipn 200 (input e)) (overrun m1 0 d)
        ([EMalloc 48;
          EStore 32 (safe_resume_at img);
          EStore 40 (cmd img e);
          EStdout ("win() @ 0x" ++ fmt_lx (win_at img) ++ LF)%string;
          EFlush;
          EStdout ("c3(): enter input" ++ LF)%string;
          EFlush;
          ERead 0 200 (List.length d);
          ELoad 32 (read_ptr fr 32);
          ELoad 40 (read_ptr fr 40)]
         ++ EInvoke (read_ptr fr 32) (read_ptr fr 40) :: post)
    /\ forallb passive post = true.
Proof.
  cbv zeta. unfold ran.
  destruct (coroutine_run_steps img e) as (k & ->). cbv zeta.
  match goal with
  | |- context [icall ?t ?c ?f ?a] =>
      match goal with
      | |- context [final (_ (?s, k))] =>
          destruct (epilogue (icall t c f a) s k) as (tail & -> & T);
          destruct (icall_quiet t c f a (coroutine_quiet_text img e) s)
            as (post & -> & P)
      end
  end.
  cbn [frame stdin spilled trace].
  exists (post ++ tail). split.
  - now rewrite <- !app_assoc.
  - now rewrite forallb_app, P, T.
Qed.

End CoroutineFacts.

(* ===================================================================== *)
(** * The step-0 victim                                                   *)
(* ===================================================================== *)

Module Step0Facts.
Import Machine MemoryFacts Step0.
Local Open Scope proc_scope.

Lemma step0_layout : OFF_buf = 0%nat /\ OFF_auth = 32%nat /\ sizeof Frame = 40%nat
               /\ member_size Frame "buf" = 32%nat.
Proof. repeat split. Qed.

Lemma step0_quiet_win : quiet win.
Proof. unfold win. apply quiet_bind; now apply quiet_emit. Qed.

Lemma quiet_check_password e p : quiet (check_password e p).
Proof.
  unfold check_password. apply quiet_bind; [now apply quiet_emit|].
  destruct (cstr e p); [| apply quiet_halt].
  destruct (_ =? 0); [apply step0_quiet_win | now apply quiet_emit].
Qed.

Lemma step0_quiet_text img e a sg body x :
  text img e a = Some (sg, body) -> quiet (body x).
Proof.
  unfold text. intros H.
  destruct (a =? check_password_at img);
    [injection H as <- <-; apply quiet_check_password|].
  destruct (a =? win_at img); [injection H as <- <-; apply step0_quiet_win|].
  discriminate.
Qed.

Lemma step0_run_steps img e :
  let d := firstn 200 (input e) in
  let m1 := write_ptr (uninit 40 (junk e)) 32 (check_password_at img) in
  let fr := write m1 0 d in
  let fn := read_ptr fr 32 in
  run img e
  = (icall (text img e) (cfi e) fn (argv_at e 1) ;; ret 0)
      (State fr (skipn 200 (input e)) (overrun m1 0 d)
         [EStore 32 (check_password_at img);
          EStdout ("win() @ 0x" ++ fmt_lx (win_at img) ++ LF)%string;
          ERead 0 200 (List.length d); ELoad 32 fn]).
Proof. reflexivity. Qed.

(** What every run of the step-0 victim looks like. *)
Lemma step0_shape img e :
  let d := firstn 200 (input e) in
  let m1 := write_ptr (uninit 40 (junk e)) 32 (check_password_at img) in
  let fr := write m1 0 d in
  exists post,
    ran img e
    = State fr (skipn 200 (input e)) (overrun m1 0 d)
        ([EStore 32 (check_password_at img);
          EStdout ("win() @ 0x" ++ fmt_lx (win_at img) ++ LF)%string;
          ERead 0 200 (List.length d); ELoad 32 (read_ptr fr 32)]
         ++ EInvoke (read_ptr fr 32) (argv_at e 1) :: post)
    /\ forallb passive post = true.
Proof.
  cbv zeta. unfold ran. rewrite step0_run_steps. cbv zeta.
  rewrite final_bind_ret.
  match goal with
  | |- context [icall ?t ?c ?f ?a ?s] =>
      destruct (icall_quiet t c f a (step0_quiet_text img e) s) as (post & E & P)
  end.
  exists post. split; [exact E | exact P].
Qed.

(** ** strcmp and the password *)

Lemma codes_differ c d :
  Ascii.eqb c d = false ->
  Z.of_nat (nat_of_ascii c) - Z.of_nat (nat_of_ascii d) <> 0.
Proof.
  intros H E. apply Ascii.eqb_neq in H. apply H.
  rewrite <- (ascii_nat_embedding c), <- (ascii_nat_embedding d).
  f_equal. lia.
Qed.

Lemma strcmp_refl s : c_string s = true -> strcmp s s = 0.
Proof.
  induction s as [|c s IH]; [reflexivity|].
  cbn [c_string strcmp]. intros H. apply andb_true_iff in H as [H1 H2].
  rewrite Ascii.eqb_refl. apply negb_true_iff in H1. rewrite H1. auto.
Qed.

Lemma strcmp_zero s t :
  c_string s = true -> c_string t = true -> strcmp s t = 0 -> s = t.
Proof.
  revert t. induction s as [|c s IH]; intros [|d t];
    cbn [c_string strcmp head_byte]; intros Hs Ht E.
  - reflexivity.
  - apply andb_true_iff in Ht as [Hd _]. apply negb_true_iff in Hd.
    rewrite Ascii.eqb_sym in Hd.
    exfalso. apply (codes_differ zero d); [exact Hd | cbn; lia].
  - apply andb_true_iff in Hs as [Hc _]. apply negb_true_iff in Hc.
    exfalso. apply (codes_differ c zero); [exact Hc | cbn; lia].
  - apply andb_true_iff in Hs as [Hc Hs]. apply negb_true_iff in Hc.
    apply andb_true_iff in Ht as [_ Ht].
    destruct (Ascii.eqb c d) eqn:Ecd.
    + apply Ascii.eqb_eq in Ecd. subst d. rewrite Hc in E.
      f_equal. now apply IH.
    + exfalso. now apply (codes_differ c d).
Qed.

(** C10: for every string, check_password calls win, which prints the
    AUTHENTICATED marker, exactly when the string is mypassword; for every
    other string it prints WRONG PASSWORD and calls nothing. *)
Theorem password_decides e p s st :
  cstr e p = Some s ->
  c_string s = true ->
  (s = "mypassword" ->
   check_password e p st
   = Done tt (State (frame st) (stdin st) (spilled st)
                (trace st ++ [EEnter "check_password"; EEnter "win";
                              EStdout ("AUTHENTICATED..." ++ LF)%string])))
  /\
  (s <> "mypassword" ->
   check_password e p st
   = Done tt (State (frame st) (stdin st) (spilled st)
                (trace st ++ [EEnter "check_password";
                              EStdout ("WRONG PASSWORD" ++ LF)%string]))).
Proof.
  intros Hp Hs. unfold check_password, win, bind, enter, printf, emit.
  rewrite Hp. cbn [frame stdin spilled trace]. split.
  - intros ->. change (strcmp "mypassword" "mypassword" =? 0) with true.
    cbv beta iota. cbn [frame stdin spilled trace].
    now rewrite <- !app_assoc.
  - intros Hne. destruct (strcmp s "mypassword" =? 0) eqn:E.
    + apply Z.eqb_eq in E. apply strcmp_zero in E; [contradiction|exact Hs|].
      reflexivity.
    + cbn [frame stdin spilled trace]. now rewrite <- app_assoc.
Qed.

(** The right password and a wrong one. *)
Lemma password_decides_witness :
  check_password Lab.short_run 0x7ffe6000 (boot 40 Lab.short_run)
  = Done tt (State (uninit 40 []) Lab.short_input []
               [EEnter "check_password"; EEnter "win";
                EStdout ("AUTHENTICATED..." ++ LF)%string])
  /\
  check_password Lab.short_run 0x7ffe5000 (boot 40 Lab.short_run)
  = Done tt (State (uninit 40 []) Lab.short_input []
               [EEnter "check_password";
                EStdout ("WRONG PASSWORD" ++ LF)%string]).
Proof.
  split.
  - apply (password_decides Lab.short_run 0x7ffe6000 "mypassword"
             (boot 40 Lab.short_run)); reflexivity.
  - apply (password_decides Lab.short_run 0x7ffe5000 "id"
             (boot 40 Lab.short_run)); [reflexivity | reflexivity |].
    discriminate.
Defined.

(** The point of step 0: win has another signature than the slot, so the
    integrity check stops the call that goes through without it. *)
Lemma signature_check_stops_win :
  (exists s, run Lab.step0_image (Lab.step0_attack true)
             = Halt (CfiAbort 0x401136) s)
  /\ ~ In (EEnter "win") (trace (ran Lab.step0_image (Lab.step0_attack true)))
  /\ (exists s, run Lab.step0_image (Lab.step0_attack false) = Done 0 s)
  /\ In (EEnter "win") (trace (ran Lab.step0_image (Lab.step0_attack false))).
Proof.
  split; [eexists; vm_compute; reflexivity|].
  split; [vm_compute; intros H;
          repeat (destruct H as [H | H]; [discriminate|]); exact H|].
  split; [eexists; vm_compute; reflexivity|].
  vm_compute. auto 10.
Qed.

End Step0Facts.

(* ===================================================================== *)
(** * What holds of every victim                                          *)
(* ===================================================================== *)

Module Victims.
Import Machine MemoryFacts TextFacts.
Local Open Scope proc_scope.

(** With the shape of a run at hand: its reads, its calls through the
    slot. *)
Ltac only_read post P :=
  cbn [trace]; rewrite filter_app; cbn [filter is_read app];
  rewrite (passive_no_read post P).

Ltac only_invoke post P :=
  cbn [trace frame]; rewrite filter_app; cbn [filter is_invoke app];
  rewrite (passive_no_invoke post P).

(** C2: every overflow victim (the simple, the coroutine and the step-0
    variant) reads its payload from standard input with the hard-coded
    request of exactly 200 bytes into the buffer declared with exactly 32
    bytes, and compares no length: whatever the input is, its first 200
    bytes are all stored from the start of the buffer on. *)
Theorem read_200_into_32
    (si : Simple.image) (ci : Coroutine.image) (zi : Step0.image) (e : env) :
  let n := Nat.min 200 (List.length (input e)) in
  (member_size Simple.Frame "buf" = 32%nat
   /\ filter is_read (trace (Simple.ran si e)) = [ERead Simple.OFF_buf 200 n]
   /\ firstn n (frame (Simple.ran si e)) ++ spilled (Simple.ran si e)
      = firstn 200 (input e))
  /\
  (member_size Coroutine.Frame "buf" = 32%nat
   /\ filter is_read (trace (Coroutine.ran ci e))
      = [ERead Coroutine.OFF_buf 200 n]
   /\ firstn n (frame (Coroutine.ran ci e)) ++ spilled (Coroutine.ran ci e)
      = firstn 200 (input e))
  /\
  (member_size Step0.Frame "buf" = 32%nat
   /\ filter is_read (trace (Step0.ran zi e)) = [ERead Step0.OFF_buf 200 n]
   /\ firstn n (frame (Step0.ran zi e)) ++ spilled (Step0.ran zi e)
      = firstn 200 (input e)).
Proof.
  cbv zeta. rewrite <- (length_firstn 200 (input e)).
  repeat split.
  - destruct (SimpleFacts.simple_shape si e) as (post & -> & P).
    now only_read post P.
  - destruct (SimpleFacts.simple_shape si e) as (post & -> & P).
    cbn [frame spilled]. apply stored_bytes.
  - destruct (CoroutineFacts.coroutine_shape ci e) as (post & -> & P).
    now only_read post P.
  - destruct (CoroutineFacts.coroutine_shape ci e) as (post & -> & P).
    cbn [frame spilled]. apply stored_bytes.
  - destruct (Step0Facts.step0_shape zi e) as (post & -> & P).
    now only_read post P.
  - destruct (Step0Facts.step0_shape zi e) as (post & -> & P).
    cbn [frame spilled]. apply stored_bytes.
Qed.




(** C7: what every victim has handed to stdout when it asks for the
    first byte of standard input begins with the line win() @ followed by
    the address of win, taken as an unsigned long, in hexadecimal (the
    notation the Standard Library reads back as that number); it is the
    only line printed by then, but for the prompt of c3 in the coroutine
    victim, and exactly one line shows the address. *)
Theorem address_leaked_once
    (si : Simple.image) (ci : Coroutine.image) (zi : Step0.image) (e : env) :
  let hex := fun a => HexString.of_Z (a mod PTR_MAX) in
  (lines (printed_before_read (trace (Simple.ran si e)))
   = [("win() @ " ++ hex (Simple.win_at si))%string]
   /\ lines_showing (hex (Simple.win_at si))
                    (printed_before_read (trace (Simple.ran si e))) = 1%nat
   /\ HexString.to_Z (hex (Simple.win_at si)) = Simple.win_at si mod PTR_MAX)
  /\
  (lines (printed_before_read (trace (Coroutine.ran ci e)))
   = [("win() @ " ++ hex (Coroutine.win_at ci))%string; "c3(): enter input"]
   /\ lines_showing (hex (Coroutine.win_at ci))
                    (printed_before_read (trace (Coroutine.ran ci e)))
      = 1%nat
   /\ HexString.to_Z (hex (Coroutine.win_at ci))
      = Coroutine.win_at ci mod PTR_MAX)
  /\
  (lines (printed_before_read (trace (Step0.ran zi e)))
   = [("win() @ " ++ hex (Step0.win_at zi))%string]
   /\ lines_showing (hex (Step0.win_at zi))
                    (printed_before_read (trace (Step0.ran zi e))) = 1%nat
   /\ HexString.to_Z (hex (Step0.win_at zi)) = Step0.win_at zi mod PTR_MAX).
Proof.
  cbv zeta.
  assert (L : forall a r,
             lines (("win() @ 0x" ++ fmt_lx a ++ LF) ++ r)
             = ("win() @ " ++ HexString.of_Z (a mod PTR_MAX))%string
               :: lines r).
  { intros a r.
    change ("win() @ 0x" ++ fmt_lx a ++ LF)%string
      with ("win() @ " ++ ("0x" ++ fmt_lx a) ++ LF)%string.
    rewrite fmt_lx_is_hex.
    rewrite <- (append_assoc "win() @ "), append_assoc.
    apply lines_first.
    rewrite has_char_app, of_Z_one_line. reflexivity. }
  split; [| split].
  - destruct (SimpleFacts.simple_shape si e) as (post & -> & _).
    cbn [trace app printed_before_read].
    split; [| split; [| apply HexString.to_Z_of_Z]].
    + now rewrite L.
    + rewrite <- fmt_lx_is_hex. now rewrite leak_line_shows.
  - destruct (CoroutineFacts.coroutine_shape ci e) as (post & -> & _).
    cbn [trace app printed_before_read].
    split; [| split; [| apply HexString.to_Z_of_Z]].
    + now rewrite L.
    + rewrite <- fmt_lx_is_hex.
      rewrite leak_line_shows, append_assoc, showing_first by reflexivity.
      change ("0x" ++ fmt_lx (Coroutine.win_at ci))%string
        with (String "0" (String "x" (fmt_lx (Coroutine.win_at ci)))).
      now rewrite found_absent.
  - destruct (Step0Facts.step0_shape zi e) as (post & -> & _).
    cbn [trace app printed_before_read].
    split; [| split; [| apply HexString.to_Z_of_Z]].
    + now rewrite L.
    + rewrite <- fmt_lx_is_hex. now rewrite leak_line_shows.
Qed.

(** ** Short inputs *)

Lemma simple_slot_kept junk v d :
  is_ptr v -> (List.length d <= 32)%nat ->
  read_ptr (write (write_ptr (uninit 40 junk) 32 v) 0 d) 32 = v.
Proof.
  intros Hv Hd. rewrite read_ptr_write_before by exact Hd.
  apply read_ptr_write_ptr; [exact Hv|].
  rewrite length_uninit. cbv [PTR_BYTES]. lia.
Qed.

Lemma coroutine_slot_kept junk v w d :
  is_ptr v -> (List.length d <= 32)%nat ->
  read_ptr (write (write_ptr (write_ptr (uninit 48 junk) 32 v) 40 w) 0 d) 32
  = v.
Proof.
  intros Hv Hd. rewrite read_ptr_write_before by exact Hd.
  rewrite read_ptr_write_ptr_after.
  - apply read_ptr_write_ptr; [exact Hv|].
    rewrite length_uninit. cbv [PTR_BYTES]. lia.
  - cbv [PTR_BYTES]. lia.
  - rewrite length_write_ptr; rewrite length_uninit; lia.
Qed.

Lemma coroutine_cmd_kept junk v w d :
  is_ptr w -> (List.length d <= 40)%nat ->
  read_ptr (write (write_ptr (write_ptr (uninit 48 junk) 32 v) 40 w) 0 d) 40
  = w.
Proof.
  intros Hw Hd. rewrite read_ptr_write_before by exact Hd.
  apply read_ptr_write_ptr; [exact Hw|].
  rewrite length_write_ptr; rewrite length_uninit; cbv [PTR_BYTES]; lia.
Qed.

(** Control that reaches a function is seen in the trace. *)
Lemma entered name (k : M state unit) s :
  quiet k -> In (EEnter name) (trace (final ((enter name ;; k) s))).
Proof.
  intros Hk. unfold bind, enter, emit.
  match goal with
  | |- context [k ?s1] => destruct (Hk s1) as (post & -> & _)
  end.
  cbn [trace]. rewrite <- app_assoc. apply in_or_app. right. now left.
Qed.

Lemma cfi_lets_pass c : c && negb (signature_eqb Sig_void_cstr Sig_void_cstr) = false.
Proof. now destruct c. Qed.

Lemma simple_safe_entered si e :
  read_ptr (write (write_ptr (uninit 40 (junk e)) 32 (Simple.safe_at si)) 0
                  (firstn 200 (input e))) 32 = Simple.safe_at si ->
  In (EEnter "safe") (trace (Simple.ran si e)).
Proof.
  intros H. unfold Simple.ran. rewrite SimpleFacts.simple_run_steps. cbv zeta.
  rewrite final_bind_ret, H.
  rewrite (icall_resolved (Simple.text si e) (cfi e) (Simple.safe_at si)
             _ Sig_void_cstr (Simple.safe si e)).
  - unfold Simple.safe. apply entered.
    destruct (Simple.str si e _); [now apply quiet_emit|].
    destruct (_ =? NULL); [now apply quiet_emit | apply quiet_halt].
  - unfold Simple.text. now rewrite Z.eqb_refl.
  - apply cfi_lets_pass.
Qed.

Lemma step0_check_password_entered zi e :
  read_ptr (write (write_ptr (uninit 40 (junk e)) 32
                             (Step0.check_password_at zi)) 0
                  (firstn 200 (input e))) 32 = Step0.check_password_at zi ->
  In (EEnter "check_password") (trace (Step0.ran zi e)).
Proof.
  intros H. unfold Step0.ran. rewrite Step0Facts.step0_run_steps. cbv zeta.
  rewrite final_bind_ret, H.
  rewrite (icall_resolved (Step0.text zi e) (cfi e)
             (Step0.check_password_at zi) (argv_at e 1) Sig_void_cstr
             (Step0.check_password e)).
  - unfold Step0.check_password. apply entered.
    destruct (cstr e _); [| apply quiet_halt].
    destruct (_ =? 0); [apply Step0Facts.step0_quiet_win | now apply quiet_emit].
  - unfold Step0.text. now rewrite Z.eqb_refl.
  - apply cfi_lets_pass.
Qed.

Lemma coroutine_safe_resume_entered ci e :
  read_ptr (write (write_ptr (write_ptr (uninit 48 (junk e)) 32
                                        (Coroutine.safe_resume_at ci))
                             40 (Coroutine.cmd ci e)) 0
                  (firstn 200 (input e))) 32 = Coroutine.safe_resume_at ci ->
  In (EEnter "safe_resume") (trace (Coroutine.ran ci e)).
Proof.
  intros H. unfold Coroutine.ran.
  destruct (CoroutineFacts.coroutine_run_steps ci e) as (k & ->). cbv zeta.
  rewrite H.
  match goal with
  | |- context [final (_ (?s, k))] =>
      destruct (CoroutineFacts.epilogue
                  (icall (Coroutine.text ci e) (cfi e)
                         (Coroutine.safe_resume_at ci)
                         (read_ptr (frame s) 40)) s k) as (tail & E & _)
  end.
  cbn [frame] in E. rewrite E. clear E. cbn [trace].
  apply in_or_app. left.
  rewrite (icall_resolved (Coroutine.text ci e) (cfi e)
             (Coroutine.safe_resume_at ci) _ Sig_void_cstr
             (Coroutine.safe_resume ci e)).
  - unfold Coroutine.safe_resume. apply entered.
    destruct (Coroutine.str ci e _);
      [| destruct (_ =? NULL); [now apply quiet_emit | apply quiet_halt]].
    apply quiet_bind; now apply quiet_emit.
  - unfold Coroutine.text. now rewrite Z.eqb_refl.
  - apply cfi_lets_pass.
Qed.

(** C9: when standard input ends after at most 32 bytes, the overflow read
    leaves the callable slot as it was set at initialisation, and the call
    through the slot that follows calls the legitimate function. *)
Theorem short_input_calls_legitimate
    (si : Simple.image) (ci : Coroutine.image) (zi : Step0.image) (e : env) :
  (List.length (input e) <= 32)%nat ->
  is_ptr (Simple.safe_at si) ->
  is_ptr (Coroutine.safe_resume_at ci) ->
  is_ptr (Step0.check_password_at zi) ->
  (read_ptr (frame (Simple.ran si e)) Simple.OFF_fn = Simple.safe_at si
   /\ filter is_invoke (trace (Simple.ran si e))
      = [EInvoke (Simple.safe_at si) (Simple.cmd si e)]
   /\ In (EEnter "safe") (trace (Simple.ran si e)))
  /\
  (read_ptr (frame (Coroutine.ran ci e)) Coroutine.OFF_resume
   = Coroutine.safe_resume_at ci
   /\ filter is_invoke (trace (Coroutine.ran ci e))
      = [EInvoke (Coroutine.safe_resume_at ci)
                 (read_ptr (frame (Coroutine.ran ci e)) Coroutine.OFF_cmd)]
   /\ In (EEnter "safe_resume") (trace (Coroutine.ran ci e)))
  /\
  (read_ptr (frame (Step0.ran zi e)) Step0.OFF_auth
   = Step0.check_password_at zi
   /\ filter is_invoke (trace (Step0.ran zi e))
      = [EInvoke (Step0.check_password_at zi) (argv_at e 1)]
   /\ In (EEnter "check_password") (trace (Step0.ran zi e))).
Proof.
  intros Hlen Hs Hc Hz.
  assert (Hd : (List.length (firstn 200 (input e)) <= 32)%nat)
    by (rewrite length_firstn; lia).
  pose proof (simple_slot_kept (junk e) _ _ Hs Hd) as Ks.
  pose proof (coroutine_slot_kept (junk e) _ (Coroutine.cmd ci e) _ Hc Hd)
    as Kc.
  pose proof (simple_slot_kept (junk e) _ _ Hz Hd) as Kz.
  split; [| split].
  - split; [| split]; [| | now apply simple_safe_entered].
    + destruct (SimpleFacts.simple_shape si e) as (post & -> & P). exact Ks.
    + destruct (SimpleFacts.simple_shape si e) as (post & -> & P).
      only_invoke post P.
      rewrite overrun_fits
        by (rewrite SimpleFacts.length_initialised; cbn [Nat.add]; lia).
      now rewrite Ks.
  - split; [| split]; [| | now apply coroutine_safe_resume_entered].
    + destruct (CoroutineFacts.coroutine_shape ci e) as (post & -> & P). exact Kc.
    + destruct (CoroutineFacts.coroutine_shape ci e) as (post & -> & P).
      only_invoke post P. now rewrite Kc.
  - split; [| split]; [| | now apply step0_check_password_entered].
    + destruct (Step0Facts.step0_shape zi e) as (post & -> & P). exact Kz.
    + destruct (Step0Facts.step0_shape zi e) as (post & -> & P).
      only_invoke post P. now rewrite Kz.
Qed.

(** Ten bytes of input, then end-of-file: each victim calls its own
    legitimate function. *)
Lemma short_input_calls_legitimate_witness :
  In (EEnter "safe") (trace (Simple.ran Lab.simple_image Lab.short_run))
  /\ In (EEnter "safe_resume")
        (trace (Coroutine.ran Lab.coroutine_image Lab.short_run))
  /\ In (EEnter "check_password")
        (trace (Step0.ran Lab.step0_image Lab.short_run)).
Proof.
  destruct (short_input_calls_legitimate
              Lab.simple_image Lab.coroutine_image Lab.step0_image
              Lab.short_run)
    as ((_ & _ & H1) & (_ & _ & H2) & (_ & _ & H3)).
  - simpl. lia.
  - unfold is_ptr, PTR_MAX. simpl. lia.
  - unfold is_ptr, PTR_MAX. simpl. lia.
  - unfold is_ptr, PTR_MAX. simpl. lia.
  - exact (conj H1 (conj H2 H3)).
Defined.

(** ** The command string *)

Lemma argv_at_is_ptr e :
  Forall is_ptr (argv e) -> 1 < argc e -> is_ptr (argv_at e 1).
Proof.
  intros H Hc. unfold argv_at, argc in *.
  rewrite Forall_forall in H. apply H, nth_In. lia.
Qed.

(** C3, as the code has it: in the simple and in the coroutine victim the
    optional first argument supplies the command string passed to the
    function called through the slot, and the literal echo SAFE (never a
    null pointer) is passed when it is omitted, as long as the input does
    not reach past the slot (at most 40 bytes): in both the pointer cmd
    lies right behind the slot, in the Frame of the coroutine victim and
    among the locals of main in the simple one, and is loaded after the
    read. The step-0 variant has no default: it passes argv[1] itself when
    one is given. *)
Theorem command_argument_passed
    (si : Simple.image) (ci : Coroutine.image) (zi : Step0.image) (e : env) :
  Forall is_ptr (argv e) ->
  is_ptr (Coroutine.echo_SAFE_at ci) ->
  Simple.echo_SAFE_at si <> NULL ->
  Coroutine.echo_SAFE_at ci <> NULL ->
  let the_call := fun t => hd_error (filter is_invoke t) in
  ((List.length (input e) <= 40)%nat ->
   exists fn, the_call (trace (Simple.ran si e))
              = Some (EInvoke fn (Simple.cmd si e)))
  /\ ((List.length (input e) <= 40)%nat ->
      exists fn, the_call (trace (Coroutine.ran ci e))
                 = Some (EInvoke fn (Coroutine.cmd ci e)))
  /\ (1 < argc e ->
      Simple.cmd si e = argv_at e 1
      /\ Coroutine.cmd ci e = argv_at e 1
      /\ exists fn, the_call (trace (Step0.ran zi e))
                    = Some (EInvoke fn (argv_at e 1)))
  /\ (argc e <= 1 ->
      (Simple.cmd si e <> NULL
       /\ Simple.str si e (Simple.cmd si e) = Some "echo SAFE")
      /\ (Coroutine.cmd ci e <> NULL
          /\ Coroutine.str ci e (Coroutine.cmd ci e) = Some "echo SAFE")).
Proof.
  intros Hargv Hecho Hs0 Hc0. cbv zeta. split; [| split; [| split]].
  - intros Hlen.
    assert (Hd : (List.length (firstn 200 (input e)) <= 40)%nat)
      by (rewrite length_firstn; lia).
    destruct (SimpleFacts.simple_shape si e) as (post & -> & P).
    eexists. only_invoke post P.
    rewrite overrun_fits
      by (rewrite SimpleFacts.length_initialised; cbn [Nat.add]; lia).
    reflexivity.
  - intros Hlen.
    assert (Hd : (List.length (firstn 200 (input e)) <= 40)%nat)
      by (rewrite length_firstn; lia).
    assert (Hcmd : is_ptr (Coroutine.cmd ci e)).
    { unfold Coroutine.cmd. destruct (1 <? argc e) eqn:E; [| exact Hecho].
      apply argv_at_is_ptr; [exact Hargv | now apply Z.ltb_lt]. }
    destruct (CoroutineFacts.coroutine_shape ci e) as (post & -> & P).
    eexists. only_invoke post P.
    now rewrite (coroutine_cmd_kept (junk e) _ _ _ Hcmd Hd).
  - intros Hc. apply Z.ltb_lt in Hc.
    unfold Simple.cmd, Coroutine.cmd. rewrite Hc. repeat split.
    destruct (Step0Facts.step0_shape zi e) as (post & -> & P).
    eexists. now only_invoke post P.
  - intros Hc. apply Z.ltb_ge in Hc.
    unfold Simple.cmd, Coroutine.cmd, Simple.str, Coroutine.str.
    rewrite Hc, !Z.eqb_refl. auto.
Qed.

(** A run of each victim with an argument and a ten-byte input, and the
    same without the argument. *)
Lemma command_argument_passed_witness :
  let the_call := fun t => hd_error (filter is_invoke t) in
  ((exists fn, the_call (trace (Simple.ran Lab.simple_image Lab.short_run))
               = Some (EInvoke fn 0x7ffe5000))
   /\ (exists fn, the_call (trace (Coroutine.ran Lab.coroutine_image
                                                 Lab.short_run))
                  = Some (EInvoke fn 0x7ffe5000))
   /\ (exists fn, the_call (trace (Step0.ran Lab.step0_image Lab.short_run))
                  = Some (EInvoke fn 0x7ffe5000)))
  /\
  ((exists fn, the_call (trace (Simple.ran Lab.simple_image Lab.bare_run))
               = Some (EInvoke fn 0x402004))
   /\ Simple.str Lab.simple_image Lab.bare_run 0x402004 = Some "echo SAFE"
   /\ (exists fn, the_call (trace (Coroutine.ran Lab.coroutine_image
                                                 Lab.bare_run))
                  = Some (EInvoke fn 0x402010))
   /\ Coroutine.str Lab.coroutine_image Lab.bare_run 0x402010
      = Some "echo SAFE").
Proof.
  cbv zeta. split.
  - destruct (command_argument_passed
                Lab.simple_image Lab.coroutine_image Lab.step0_image
                Lab.short_run)
      as (H1 & H2 & H3 & _).
    + repeat constructor; unfold PTR_MAX; simpl; lia.
    + unfold is_ptr, PTR_MAX. simpl. lia.
    + simpl. discriminate.
    + simpl. discriminate.
    + split; [| split].
      * apply H1. simpl. lia.
      * apply H2. simpl. lia.
      * apply H3. reflexivity.
  - destruct (command_argument_passed
                Lab.simple_image Lab.coroutine_image Lab.step0_image
                Lab.bare_run)
      as (H1 & H2 & _ & H4).
    + repeat constructor; unfold PTR_MAX; simpl; lia.
    + unfold is_ptr, PTR_MAX. simpl. lia.
    + simpl. discriminate.
    + simpl. discriminate.
    + destruct H4 as ((_ & S1) & (_ & S2)); [unfold argc; simpl; lia|].
      split; [| split; [exact S1 | split; [| exact S2]]].
      * apply H1. simpl. lia.
      * apply H2. simpl. lia.
Defined.

(** C3 as stated fails: started without an argument, the step-0 variant
    passes the null pointer through the slot; in the coroutine victim a
    payload of 48 bytes replaces the command pointer taken from argv[1];
    and so it does in the simple victim, where the pointer is the local
    behind the Frame. *)
Lemma default_command_counterexample :
  (argc Lab.step0_bare = 1
   /\ filter is_invoke (trace (Step0.ran Lab.step0_image Lab.step0_bare))
      = [EInvoke 0x401146 NULL])
  /\
  (argv_at Lab.coroutine_long 1 = 0x7ffe5000
   /\ filter is_invoke
        (trace (Coroutine.ran Lab.coroutine_image Lab.coroutine_long))
      = [EInvoke 0x401256 0x7ffe6000])
  /\
  (argv_at Bench.simple_long 1 = 0x7ffe5000
   /\ filter is_invoke
        (trace (Simple.ran Lab.simple_image Bench.simple_long))
      = [EInvoke 0x401136 0x7ffe6000]).
Proof. vm_compute. repeat split. Qed.

End Victims.

(* ===================================================================== *)
(** * The real-time demos                                                 *)
(* ===================================================================== *)

Module RealTimeFacts.
Import Rtsan RealTime.

(** C8: in the trivial example, violation, declared nonblocking, allocates
    dynamic memory when it is executed (through the resize of the vector),
    and main executes it; safe_realtime_fn, declared the same way, performs
    no allocation, no lock acquisition and no blocking operation. *)
Theorem violation_allocates_safe_does_not :
  ops_of violation
  = [Enter "violation" nonblocking; Lib (malloc 400); Lib free; Leave]
  /\ ops_of main = [Enter "main" unmarked] ++ ops_of violation ++ [Leave]
  /\ ops_of safe_realtime_fn = [Enter "safe_realtime_fn" nonblocking; Leave]
  /\ filter designated (ops_of safe_realtime_fn) = [].
Proof. repeat split. Qed.

(** The checker reports the allocation, and nothing for the safe function. *)
Lemma checker_on_real_time :
  report true [] (ops_of main)
  = [Diagnostic unsafe_library_call ["malloc"; "violation"; "main"]]
  /\ report false [] (ops_of safe_realtime_fn) = [].
Proof. split; reflexivity. Qed.

End RealTimeFacts.

Module ModemFacts.
Import Rtsan Modem.

(** C6: rt_timer_callback_safe only reads the two atomic counters, with
    relaxed loads; it writes no program state, takes no lock and allocates
    nothing: every part of the program state is after the call what it
    was before. *)
Theorem safe_callback_only_reads s :
  rt_timer_callback_safe s
  = Done tt (State (g_cached_rssi s) (g_cached_ber s) (g_dte s)
               (internal_lock_ s) (heap s)
               (ops s ++ [Enter "rt_timer_callback_safe" nonblocking;
                          AtomicLoad "g_cached_rssi" memory_order_relaxed;
                          AtomicLoad "g_cached_ber" memory_order_relaxed;
                          Leave]))
  /\ filter designated (log_of rt_timer_callback_safe s) = [].
Proof.
  repeat split.
  unfold rt_timer_callback_safe, bind, enter, leave, emit, load_rssi, load_ber.
  cbn [g_cached_rssi g_cached_ber g_dte internal_lock_ heap ops].
  now rewrite <- !app_assoc.
Qed.

(** What the unsafe callback does, once g_dte points to the DTE. *)
Lemma unsafe_callback_log s :
  g_dte s = true ->
  log_of rt_timer_callback_unsafe s
  = [Enter "rt_timer_callback_unsafe" nonblocking;
     Enter "SimpleDTE::get_signal_quality" unmarked;
     Enter "SimpleDTE::generic_command_with_parse" unmarked;
     Enter "SimpleDTE::command" blocking;
     Enter "Scoped<Lock>::Scoped" unmarked;
     Lib pthread_mutex_lock;
     Leave;
     Enter "SimModem::process" unmarked;
     Lib (malloc 18);
     Leave;
     Sscanf 2;
     Lib free;
     Enter "Scoped<Lock>::~Scoped" unmarked;
     Lib pthread_mutex_unlock;
     Leave; Leave; Leave; Leave;
     AtomicStore "g_cached_rssi" 18 memory_order_seq_cst;
     AtomicStore "g_cached_ber" 99 memory_order_seq_cst;
     Leave].
Proof.
  destruct s as [r b d l h o]. cbn [g_dte]. intros ->. reflexivity.
Qed.

(** C5, as the code has it: when rt_timer_callback_unsafe runs under the
    checker, then with abort on the first violation the one diagnostic
    that fires is the blocking call of SimpleDTE::command, the function
    marked blocking, and names it as its first offending frame; the lock
    is acquired only inside that function, after the report (the first
    library call reached in it is pthread_mutex_lock). With the abort
    disabled exactly five diagnostics fire, one for each blocking
    primitive in the call chain rooted at the callback: the call of
    SimpleDTE::command first, the lock acquisition second, then malloc,
    free and the release of the lock. *)
Theorem unsafe_callback_diagnostics s :
  g_dte s = true ->
  let log := log_of rt_timer_callback_unsafe s in
  report true [] log
  = [Diagnostic blocking_call
       ["SimpleDTE::command"; "SimpleDTE::generic_command_with_parse";
        "SimpleDTE::get_signal_quality"; "rt_timer_callback_unsafe"]]
  /\ (exists before rest,
        log = before
              ++ [Enter "SimpleDTE::command" blocking;
                  Enter "Scoped<Lock>::Scoped" unmarked;
                  Lib pthread_mutex_lock]
              ++ rest
        /\ filter designated before = [])
  /\ map offending_frame (report false [] log)
     = ["SimpleDTE::command"; "pthread_mutex_lock"; "malloc"; "free";
        "pthread_mutex_unlock"]
  /\ List.length (report false [] log) = 5%nat
  /\ List.length (filter designated log) = 5%nat.
Proof.
  intros H. cbv zeta. rewrite (unsafe_callback_log s H).
  split; [reflexivity|]. split; [| repeat split].
  eexists [_; _; _], _. split; reflexivity.
Qed.

(** So the checker has nothing to report on the safe callback. *)
Lemma checker_on_safe_callback s :
  report false [] (log_of rt_timer_callback_safe s) = [].
Proof. reflexivity. Qed.

(** The callback as main reaches it. *)
Lemma unsafe_callback_diagnostics_witness :
  List.length (report true [] (log_of rt_timer_callback_unsafe
                                      Lab.modem_armed)) = 1%nat
  /\ List.length (report false [] (log_of rt_timer_callback_unsafe
                                          Lab.modem_armed)) = 5%nat.
Proof.
  destruct (unsafe_callback_diagnostics Lab.modem_armed)
    as (H1 & _ & _ & H5 & _).
  - reflexivity.
  - split; [now rewrite H1 | exact H5].
Defined.

(** C5 as stated fails: with abort on the first violation the diagnostic
    that fires is no lock acquisition; it is the blocking call of
    SimpleDTE::command, and neither pthread_mutex_lock nor the constructor
    of the lock guard is among its frames. The lock acquisition is the
    second of the five diagnostics, reached only with the abort disabled. *)
Lemma lock_acquisition_counterexample :
  let log := log_of rt_timer_callback_unsafe Lab.modem_armed in
  map d_kind (report true [] log) = [blocking_call]
  /\ map offending_frame (report true [] log) = ["SimpleDTE::command"]
  /\ (forall d, In d (report true [] log) ->
       ~ In (libcall_name pthread_mutex_lock) (d_frames d)
       /\ ~ In "Scoped<Lock>::Scoped" (d_frames d))
  /\ nth_error (report false [] log) 1
     = Some (Diagnostic unsafe_library_call
               [libcall_name pthread_mutex_lock; "Scoped<Lock>::Scoped";
                "SimpleDTE::command";
                "SimpleDTE::generic_command_with_parse";
                "SimpleDTE::get_signal_quality";
                "rt_timer_callback_unsafe"]).
Proof.
  cbv zeta. split; [reflexivity|]. split; [reflexivity|].
  split; [| reflexivity].
  intros d [<- | []].
  split; intros H; cbn in H;
    repeat (destruct H as [H | H]; [discriminate|]); exact H.
Qed.

(** The whole demo: without the checker main runs to its end and returns
    0; under the checker the first diagnostic is raised in the unsafe
    callback, with main at the root of the chain. *)
Lemma checker_on_main :
  (exists s, main boot = Done 0 s
             /\ g_cached_rssi s = 18 /\ g_cached_ber s = 99
             /\ internal_lock_ s = 0%nat /\ heap s = 0%nat)
  /\ report true [] (ops_of (main boot))
     = [Diagnostic blocking_call
          ["SimpleDTE::command"; "SimpleDTE::generic_command_with_parse";
           "SimpleDTE::get_signal_quality"; "rt_timer_callback_unsafe";
           "main"]]
  /\ List.length (report false [] (ops_of (main boot))) = 5%nat.
Proof.
  split; [| split; vm_compute; reflexivity].
  eexists. vm_compute. repeat split.
Qed.

End ModemFacts.

(* ===================================================================== *)
(** * More about the victims: what an overflow does to the slot           *)
(* ===================================================================== *)

Module Overflow.
Import Machine MemoryFacts TextFacts.
Local Open Scope proc_scope.

(** ** The memory operations *)

(** A pointer that lies wholly inside what was written is read back from
    the written bytes. *)
Lemma read_ptr_write_inside m d k :
  (k + PTR_BYTES <= List.length d)%nat ->
  (k + PTR_BYTES <= List.length m)%nat ->
  read_ptr (write m 0 d) k = le_combine (firstn PTR_BYTES (skipn k d)).
Proof.
  intros Hd Hm. unfold read_ptr, write. cbn [firstn app Nat.add].
  rewrite Nat.sub_0_r. f_equal.
  rewrite skipn_app, firstn_app.
  rewrite length_skipn, !length_firstn.
  replace (PTR_BYTES - (Nat.min (List.length m) (List.length d) - k))%nat
    with 0%nat by lia.
  cbn [firstn]. rewrite app_nil_r.
  rewrite skipn_firstn_comm, firstn_firstn. f_equal. lia.
Qed.

Lemma write_ptr_at_end m off v :
  List.length m = (off + PTR_BYTES)%nat ->
  write_ptr m off v = firstn off m ++ le_split PTR_BYTES v.
Proof.
  intros H. unfold write_ptr, write. rewrite length_le_split.
  rewrite (skipn_all2 m) by lia. rewrite app_nil_r. f_equal.
  apply firstn_all2. rewrite length_le_split. lia.
Qed.

(** A write that ends inside a pointer at the end of the object replaces
    its low bytes and keeps the others. *)
Lemma read_ptr_write_across m d off v :
  List.length m = (off + PTR_BYTES)%nat ->
  (off <= List.length d <= off + PTR_BYTES)%nat ->
  read_ptr (write (write_ptr m off v) 0 d) off
  = le_combine (skipn off d
                ++ skipn (List.length d - off) (le_split PTR_BYTES v)).
Proof.
  intros Hm Hd. rewrite (write_ptr_at_end m off v Hm).
  unfold read_ptr, write. cbn [firstn app Nat.add]. rewrite Nat.sub_0_r.
  rewrite length_app, length_firstn, length_le_split.
  rewrite (firstn_all2 (n := (Nat.min off (List.length m) + PTR_BYTES)%nat))
    by lia.
  rewrite (skipn_app (List.length d)), length_firstn.
  rewrite (skipn_all2 (firstn off m)) by (rewrite length_firstn; lia).
  cbn [app].
  replace (List.length d - Nat.min off (List.length m))%nat
    with (List.length d - off)%nat by lia.
  rewrite skipn_app.
  replace (off - List.length d)%nat with 0%nat by lia. cbn [skipn].
  f_equal. apply firstn_all2.
  rewrite length_app, !length_skipn, length_le_split. lia.
Qed.

(** The same in numbers: the low bytes come from the input, the high
    bytes are those of the pointer that was there. *)
Lemma le_combine_across d off v :
  is_ptr v -> (off <= List.length d <= off + PTR_BYTES)%nat ->
  le_combine (skipn off d
              ++ skipn (List.length d - off) (le_split PTR_BYTES v))
  = Z.lor (le_combine (skipn off d))
          (Z.shiftl (Z.shiftr v (8 * Z.of_nat (List.length d - off)))
                    (8 * Z.of_nat (List.length d - off))).
Proof.
  intros Hv Hd. rewrite le_combine_app, length_skipn.
  rewrite skipn_le_split by lia. rewrite le_combine_split.
  f_equal. rewrite Z.mul_comm. f_equal.
  apply Z.mod_small. unfold is_ptr, PTR_MAX in Hv.
  set (k := (List.length d - off)%nat) in *.
  assert (Hk : (k <= PTR_BYTES)%nat) by lia.
  split; [apply Z.shiftr_nonneg; lia|].
  rewrite Z.shiftr_div_pow2 by lia.
  apply Z.div_lt_upper_bound; [apply Z.pow_pos_nonneg; lia|].
  rewrite <- Z.pow_add_r by lia.
  replace (Z.of_nat k * 8 + Z.of_nat (PTR_BYTES - k) * 8) with 64
    by (unfold PTR_BYTES in *; lia).
  lia.
Qed.




Lemma length_simple_init junk v :
  List.length (write_ptr (uninit 40 junk) 32 v) = 40%nat.
Proof.
  rewrite length_write_ptr; rewrite length_uninit; [reflexivity | lia].
Qed.

Lemma length_coroutine_init junk v w :
  List.length (write_ptr (write_ptr (uninit 48 junk) 32 v) 40 w) = 48%nat.
Proof.
  rewrite length_write_ptr; rewrite length_write_ptr;
    rewrite ?length_uninit; try reflexivity; lia.
Qed.

(** ** What the read leaves behind *)

(** X1: the read takes the first 200 bytes of the input and no more; of
    these, what lies past the size of the Frame (40 bytes, 48 in the
    coroutine victim) is stored behind the Frame. *)
Theorem input_taken_and_spilled
    (si : Simple.image) (ci : Coroutine.image) (zi : Step0.image) (e : env) :
  (stdin (Simple.ran si e) = skipn 200 (input e)
   /\ spilled (Simple.ran si e) = skipn 40 (firstn 200 (input e)))
  /\ (stdin (Coroutine.ran ci e) = skipn 200 (input e)
      /\ spilled (Coroutine.ran ci e) = skipn 48 (firstn 200 (input e)))
  /\ (stdin (Step0.ran zi e) = skipn 200 (input e)
      /\ spilled (Step0.ran zi e) = skipn 40 (firstn 200 (input e))).
Proof.
  split; [| split].
  - destruct (SimpleFacts.simple_shape si e) as (post & -> & _).
    cbn [stdin spilled]. unfold overrun.
    now rewrite length_simple_init.
  - destruct (CoroutineFacts.coroutine_shape ci e) as (post & -> & _).
    cbn [stdin spilled]. unfold overrun.
    now rewrite length_coroutine_init.
  - destruct (Step0Facts.step0_shape zi e) as (post & -> & _).
    cbn [stdin spilled]. unfold overrun.
    now rewrite length_simple_init.
Qed.

(** ** An input that covers the slot *)



(** ** An input that ends inside the slot *)

(** X3: when the input ends inside the slot (32 to 40 bytes), the simple
    and the step-0 victim call the address whose low bytes are the input's
    bytes from 32 on and whose remaining high bytes are those of the
    legitimate function. *)
Theorem input_ends_in_slot
    (si : Simple.image) (zi : Step0.image) (e : env) :
  (32 <= List.length (input e) <= 40)%nat ->
  is_ptr (Simple.safe_at si) ->
  is_ptr (Step0.check_password_at zi) ->
  let k := 8 * Z.of_nat (List.length (input e) - 32) in
  let low := le_combine (skipn 32 (input e)) in
  filter is_invoke (trace (Simple.ran si e))
  = [EInvoke (Z.lor low (Z.shiftl (Z.shiftr (Simple.safe_at si) k) k))
             (Simple.cmd si e)]
  /\ filter is_invoke (trace (Step0.ran zi e))
     = [EInvoke (Z.lor low
                   (Z.shiftl (Z.shiftr (Step0.check_password_at zi) k) k))
                (argv_at e 1)].
Proof.
  intros Hlen Hs Hz. cbv zeta.
  assert (Hd : firstn 200 (input e) = input e)
    by (apply firstn_all2; lia).
  assert (K : forall junk v, is_ptr v ->
            read_ptr (write (write_ptr (uninit 40 junk) 32 v) 0 (input e)) 32
            = Z.lor (le_combine (skipn 32 (input e)))
                (Z.shiftl
                   (Z.shiftr v (8 * Z.of_nat (List.length (input e) - 32)))
                   (8 * Z.of_nat (List.length (input e) - 32)))).
  { intros junk v Hv. rewrite read_ptr_write_across.
    - apply le_combine_across; [exact Hv|]. unfold PTR_BYTES. lia.
    - rewrite length_uninit. reflexivity.
    - unfold PTR_BYTES. lia. }
  split.
  - destruct (SimpleFacts.simple_shape si e) as (post & -> & P).
    cbn [trace]. rewrite filter_app. cbn [filter is_invoke app].
    rewrite (passive_no_invoke post P), Hd, K by assumption.
    rewrite overrun_fits by (rewrite length_simple_init; cbn [Nat.add]; lia).
    reflexivity.
  - destruct (Step0Facts.step0_shape zi e) as (post & -> & P).
    cbn [trace]. rewrite filter_app. cbn [filter is_invoke app].
    now rewrite (passive_no_invoke post P), Hd, K.
Qed.

(** One byte too many is enough where safe and win differ in their lowest
    byte only: the byte 0x56 turns 0x401136 into 0x401156. *)
Lemma input_ends_in_slot_witness :
  filter is_invoke (trace (Simple.ran Lab.simple_image Bench.one_byte_over))
  = [EInvoke 0x401156 0x7ffe5000].
Proof.
  destruct (input_ends_in_slot Lab.simple_image Lab.step0_image
              Bench.one_byte_over) as (H & _).
  - simpl. lia.
  - unfold is_ptr, PTR_MAX. simpl. lia.
  - unfold is_ptr, PTR_MAX. simpl. lia.
  - exact H.
Defined.

End Overflow.

(* ===================================================================== *)
(** * More about the coroutine victim: the chain of tasks                 *)
(* ===================================================================== *)

Module Chain.
Import Machine MemoryFacts Coroutine.
Local Open Scope proc_scope.

(** The coroutine states when main has called c1. *)
Lemma called_c1 (s : state) :
  call c1 (s, fun _ => None)
  = Done (h_coro c1)
         (s, set (fun _ => None) c1 (Some (Activation 0 (Promise h_null)))).
Proof. reflexivity. Qed.

(** Run the transfers of the chain, leaving reads and writes as they
    are. *)
Ltac step_chain :=
  cbv [bind lift ret halt call update lookup resume body co_await co_return
       suspend_at destroy awaiter_await_suspend final_awaiter_await_suspend
       set coro_eqb fst snd emit printf fflush fread
       point promise continuation frame stdin spilled trace
       Nat.mul Nat.add].

(** X4: start() on the task of c1 runs c1, c2 and c3 to their ends in five
    resumptions (c1, c2, c3, c2, c1): one prompt is printed and flushed,
    one read is made, the tasks of c2 and c3 are destroyed and c1 is left
    at its final suspension with no continuation. Five resumptions are
    needed and any number above will do. *)
Theorem start_runs_the_chain (s : state) (n : nat) :
  let w := (s, set (fun _ => None) c1 (Some (Activation 0 (Promise h_null)))) in
  let d := firstn 200 (stdin s) in
  ((5 <= n)%nat ->
   exists k,
     resume n (h_coro c1) w
     = Done tt
         (State (write (frame s) 0 d) (skipn 200 (stdin s))
                (spilled s ++ overrun (frame s) 0 d)
                (trace s ++ [EStdout ("c3(): enter input" ++ LF)%string;
                             EFlush; ERead 0 200 (List.length d)]),
          k)
     /\ k c1 = Some (Activation 2 (Promise h_null))
     /\ k c2 = None /\ k c3 = None)
  /\ ((n < 5)%nat -> exists w', resume n (h_coro c1) w = Halt Starved w').
Proof.
  cbv zeta. split; intros Hn.
  - do 5 (destruct n as [|n]; [lia|]). step_chain.
    change OFF_buf with 0%nat. rewrite <- !app_assoc. cbn [app].
    destruct n; (eexists; split; [reflexivity | repeat split]).
  - do 5 (destruct n as [|n]; [step_chain; eexists; reflexivity|]). lia.
Qed.

(** start() with ten bytes of input. *)
Lemma start_runs_the_chain_witness :
  exists k,
    resume FUEL (h_coro c1)
      (boot 48 Lab.short_run,
       set (fun _ => None) c1 (Some (Activation 0 (Promise h_null))))
    = Done tt
        (State (write (uninit 48 []) 0 Lab.short_input) [] []
               [EStdout ("c3(): enter input" ++ LF)%string; EFlush;
                ERead 0 200 10],
         k)
    /\ k c1 = Some (Activation 2 (Promise h_null))
    /\ k c2 = None /\ k c3 = None.
Proof.
  destruct (start_runs_the_chain (boot 48 Lab.short_run) FUEL) as (H & _).
  apply H. unfold FUEL. lia.
Defined.

(** The run of main up to the call through the slot, with the coroutine
    states at that point. *)
Lemma run_steps_alive img e :
  let d := firstn 200 (input e) in
  let m1 := write_ptr (write_ptr (uninit 48 (junk e)) 32 (safe_resume_at img))
                      40 (cmd img e) in
  let fr := write m1 0 d in
  exists k,
    run img e
    = (lift (icall (text img e) (cfi e) (read_ptr fr 32) (read_ptr fr 40)) ;;
       lift (emit EFree) ;; destroy c1 ;; ret 0)
        (State fr (skipn 200 (input e)) (overrun m1 0 d)
           [EMalloc 48;
            EStore 32 (safe_resume_at img);
            EStore 40 (cmd img e);
            EStdout ("win() @ 0x" ++ fmt_lx (win_at img) ++ LF)%string;
            EFlush;
            EStdout ("c3(): enter input" ++ LF)%string;
            EFlush;
            ERead 0 200 (List.length d);
            ELoad 32 (read_ptr fr 32);
            ELoad 40 (read_ptr fr 40)],
         k)
    /\ k c1 = Some (Activation 2 (Promise h_null))
    /\ k c2 = None /\ k c3 = None.
Proof.
  cbv zeta. unfold run, main.
  change (sizeof Frame) with 48%nat.
  change OFF_resume with 32%nat. change OFF_cmd with 40%nat.
  change OFF_buf with 0%nat.
  cbv [bind lift ret call update lookup resume FUEL body co_await co_return
       suspend_at destroy awaiter_await_suspend final_awaiter_await_suspend
       set coro_eqb fst snd emit store load printf fflush fread boot
       point promise continuation frame stdin spilled trace app
       Nat.mul Nat.add].
  eexists. split; [reflexivity | repeat split].
Qed.

(** What follows the call through the slot. *)
Lemma after_the_call (c : M state unit) s k :
  (lift c ;; lift (emit EFree) ;; destroy c1 ;; ret 0) (s, k)
  = match c s with
    | Done _ s1 =>
        Done 0 (State (frame s1) (stdin s1) (spilled s1) (trace s1 ++ [EFree]),
                set k c1 None)
    | Halt why s1 => Halt why (s1, k)
    end.
Proof.
  unfold bind, lift, emit, destroy, update, ret. cbn [fst snd].
  now destruct (c s).
Qed.




End Chain.

(* ===================================================================== *)
(** * More about the victims: whole runs                                  *)
(* ===================================================================== *)

Module Runs.
Import Machine MemoryFacts.
Local Open Scope proc_scope.

(** ** The simple victim *)

(** X6: with an input of at most 32 bytes the simple victim behaves as
    intended, with or without the integrity check: it prints the address
    line and the line of safe with the command string (echo SAFE when no
    argument is given), calls nothing else, stores nothing past the Frame,
    consumes the whole input and returns 0. *)
Theorem simple_intended_run (img : Simple.image) (e : env) :
  (List.length (input e) <= 32)%nat ->
  is_ptr (Simple.safe_at img) ->
  readable_args e ->
  exists text,
    Simple.str img e (Simple.cmd img e) = Some text
    /\ (argc e <= 1 -> text = "echo SAFE")
    /\ Simple.run img e
       = Done 0
           (State (write (write_ptr (uninit 40 (junk e)) 32
                                    (Simple.safe_at img)) 0 (input e))
                  [] []
                  [EStore 32 (Simple.safe_at img);
                   EStdout ("win() @ 0x" ++ fmt_lx (Simple.win_at img)
                              ++ LF)%string;
                   EFlush;
                   ERead 0 200 (List.length (input e));
                   ELoad 32 (Simple.safe_at img);
                   EInvoke (Simple.safe_at img) (Simple.cmd img e);
                   EEnter "safe";
                   EStdout ("safe path: " ++ text ++ LF)%string]).
Proof.
  intros Hlen Hs Hargs.
  destruct (Simple.str img e (Simple.cmd img e)) as [text|] eqn:Et;
    [| now apply SimpleFacts.cmd_readable in Et].
  exists text. split; [reflexivity|]. split.
  - intros Hc. apply Z.ltb_ge in Hc. revert Et.
    unfold Simple.str, Simple.cmd. rewrite Hc, Z.eqb_refl. now intros [= <-].
  - rewrite SimpleFacts.simple_run_steps. cbv zeta.
    rewrite (firstn_all2 (n := 200%nat)) by lia.
    rewrite (skipn_all2 (n := 200%nat)) by lia.
    rewrite overrun_fits
      by (rewrite Overflow.length_simple_init; cbn [Nat.add]; lia).
    rewrite behind_untouched.
    rewrite Victims.simple_slot_kept by assumption.
    unfold bind at 1.
    rewrite (icall_resolved (Simple.text img e) (cfi e) (Simple.safe_at img)
               (Simple.cmd img e) Sig_void_cstr (Simple.safe img e)).
    + unfold Simple.safe, enter, printf, emit, bind, ret. now rewrite Et.
    + unfold Simple.text. now rewrite Z.eqb_refl.
    + apply Victims.cfi_lets_pass.
Qed.

(** Ten bytes of input and no argument: safe path: echo SAFE. *)
Lemma simple_intended_run_witness :
  exists s,
    Simple.run Lab.simple_image Lab.bare_run = Done 0 s
    /\ In (EStdout ("safe path: echo SAFE" ++ LF)%string) (trace s).
Proof.
  destruct (simple_intended_run Lab.simple_image Lab.bare_run)
    as (text & _ & Ht & ->).
  - simpl. lia.
  - unfold is_ptr, PTR_MAX. simpl. lia.
  - repeat constructor; simpl; discriminate.
  - eexists. split; [reflexivity|]. cbn [trace].
    rewrite Ht by (unfold argc; simpl; lia). simpl. auto 10.
Defined.

(** The exploit of the simple victim, whether the integrity check is on
    or off. *)
Lemma simple_hijack (img : Simple.image) (e : env) :
  is_ptr (Simple.win_at img) ->
  Simple.win_at img <> Simple.safe_at img ->
  readable_args e ->
  input e = Simple.payload (Simple.win_at img) ->
  exists s,
    Simple.run img e = Done 0 s
    /\ spilled s = []
    /\ trace s =
         [EStore 32 (Simple.safe_at img);
          EStdout ("win() @ 0x" ++ fmt_lx (Simple.win_at img) ++ LF)%string;
          EFlush;
          ERead 0 200 40;
          ELoad 32 (Simple.win_at img);
          EInvoke (Simple.win_at img) (Simple.cmd img e);
          EEnter "win";
          ESystem (Simple.cmd img e)].
Proof.
  intros Hw Hne Hargs Hin.
  pose proof (SimpleFacts.length_payload (Simple.win_at img)) as Hl.
  rewrite SimpleFacts.simple_run_steps. cbv zeta. rewrite Hin.
  rewrite (firstn_all2 (n := 200%nat)) by (rewrite Hl; lia).
  rewrite write_covering by (rewrite Overflow.length_simple_init, Hl; lia).
  rewrite Overflow.length_simple_init.
  rewrite (firstn_all2 (n := 40%nat)) by (rewrite Hl; lia).
  rewrite overrun_fits by (rewrite Overflow.length_simple_init, Hl; lia).
  rewrite behind_untouched.
  rewrite SimpleFacts.read_ptr_payload, Hl by assumption.
  unfold bind at 1.
  rewrite (icall_resolved (Simple.text img e) (cfi e) (Simple.win_at img)
             (Simple.cmd img e) Sig_void_cstr Simple.win).
  2:{ unfold Simple.text. apply Z.eqb_neq in Hne.
      now rewrite Hne, Z.eqb_refl. }
  2:{ apply Victims.cfi_lets_pass. }
  unfold Simple.win, system, enter, emit, bind, ret.
  cbn [frame stdin spilled trace app].
  eexists; split; [reflexivity|]; cbn [spilled trace]; now split.
Qed.

(** ** The coroutine victim *)

Lemma coroutine_cmd_is_ptr (img : Coroutine.image) (e : env) :
  Forall is_ptr (argv e) -> is_ptr (Coroutine.echo_SAFE_at img) ->
  is_ptr (Coroutine.cmd img e).
Proof.
  intros Ha He. unfold Coroutine.cmd.
  destruct (1 <? argc e) eqn:E; [| exact He].
  apply Victims.argv_at_is_ptr; [exact Ha | now apply Z.ltb_lt].
Qed.

Lemma coroutine_cmd_readable (img : Coroutine.image) (e : env) :
  readable_args e -> Coroutine.str img e (Coroutine.cmd img e) <> None.
Proof.
  intros H. unfold Coroutine.str, Coroutine.cmd, argv_at, argc.
  destruct (1 <? Z.of_nat (List.length (argv e))) eqn:E.
  - destruct (_ =? Coroutine.echo_SAFE_at img); [discriminate|].
    apply Z.ltb_lt in E.
    unfold readable_args in H. rewrite Forall_forall in H.
    apply H, nth_In. lia.
  - now rewrite Z.eqb_refl.
Qed.

(** X7: with an input of at most 32 bytes the coroutine victim behaves as
    intended, with or without the integrity check: after the address line
    and the prompt of c3 it prints the line of safe_resume with the command
    string (echo SAFE when no argument is given), frees the Frame, leaves
    no coroutine alive and returns 0. *)
Theorem coroutine_intended_run (img : Coroutine.image) (e : env) :
  (List.length (input e) <= 32)%nat ->
  is_ptr (Coroutine.safe_resume_at img) ->
  is_ptr (Coroutine.echo_SAFE_at img) ->
  Forall is_ptr (argv e) ->
  readable_args e ->
  exists text w,
    Coroutine.str img e (Coroutine.cmd img e) = Some text
    /\ (argc e <= 1 -> text = "echo SAFE")
    /\ Coroutine.run img e = Done 0 w
    /\ (forall c, snd w c = None)
    /\ stdin (fst w) = [] /\ spilled (fst w) = []
    /\ trace (fst w)
       = [EMalloc 48;
          EStore 32 (Coroutine.safe_resume_at img);
          EStore 40 (Coroutine.cmd img e);
          EStdout ("win() @ 0x" ++ fmt_lx (Coroutine.win_at img)
                     ++ LF)%string;
          EFlush;
          EStdout ("c3(): enter input" ++ LF)%string;
          EFlush;
          ERead 0 200 (List.length (input e));
          ELoad 32 (Coroutine.safe_resume_at img);
          ELoad 40 (Coroutine.cmd img e);
          EInvoke (Coroutine.safe_resume_at img) (Coroutine.cmd img e);
          EEnter "safe_resume";
          EStdout ("safe resume: " ++ text ++ LF)%string;
          EFlush;
          EFree].
Proof.
  intros Hlen Hs He Ha Hargs.
  pose proof (coroutine_cmd_is_ptr img e Ha He) as Hcmd.
  destruct (Coroutine.str img e (Coroutine.cmd img e)) as [text|] eqn:Et;
    [| now apply coroutine_cmd_readable in Et].
  exists text.
  destruct (Chain.run_steps_alive img e) as (k & -> & K1 & K2 & K3).
  cbv zeta. rewrite Chain.after_the_call.
  rewrite (firstn_all2 (n := 200%nat)) by lia.
  rewrite (skipn_all2 (n := 200%nat)) by lia.
  rewrite overrun_fits
    by (rewrite Overflow.length_coroutine_init; cbn [Nat.add]; lia).
  rewrite Victims.coroutine_slot_kept by assumption.
  rewrite Victims.coroutine_cmd_kept by (assumption || lia).
  rewrite (icall_resolved (Coroutine.text img e) (cfi e)
             (Coroutine.safe_resume_at img) (Coroutine.cmd img e)
             Sig_void_cstr (Coroutine.safe_resume img e)).
  2:{ unfold Coroutine.text. now rewrite Z.eqb_refl. }
  2:{ apply Victims.cfi_lets_pass. }
  unfold Coroutine.safe_resume, enter, printf, fflush, emit, bind, ret.
  rewrite Et. cbn [frame stdin spilled trace app].
  eexists. split; [reflexivity|]. split.
  - intros Hc. apply Z.ltb_ge in Hc. revert Et.
    unfold Coroutine.str, Coroutine.cmd. rewrite Hc, Z.eqb_refl.
    now intros [= <-].
  - split; [reflexivity|]. cbn [fst snd stdin spilled trace].
    repeat split.
    intros []; cbv [Coroutine.set Coroutine.coro_eqb]; auto.
Qed.

(** Ten bytes of input and no argument: safe resume: echo SAFE. *)
Lemma coroutine_intended_run_witness :
  exists w,
    Coroutine.run Lab.coroutine_image Lab.bare_run = Done 0 w
    /\ In (EStdout ("safe resume: echo SAFE" ++ LF)%string) (trace (fst w)).
Proof.
  destruct (coroutine_intended_run Lab.coroutine_image Lab.bare_run)
    as (text & w & _ & Ht & Hr & _ & _ & _ & Htr).
  - simpl. lia.
  - unfold is_ptr, PTR_MAX. simpl. lia.
  - unfold is_ptr, PTR_MAX. simpl. lia.
  - repeat constructor; unfold PTR_MAX; simpl; lia.
  - repeat constructor; simpl; discriminate.
  - exists w. split; [exact Hr|]. rewrite Htr.
    rewrite Ht by (unfold argc; simpl; lia). simpl. auto 20.
Defined.

Lemma length_coroutine_payload v :
  List.length (Coroutine.payload v) = 40%nat.
Proof.
  unfold Coroutine.payload.
  now rewrite length_app, repeat_length, length_le_split.
Qed.

Lemma read_ptr_coroutine_payload m v :
  is_ptr v -> List.length m = 48%nat ->
  read_ptr (write m 0 (Coroutine.payload v)) 32 = v.
Proof.
  intros Hv Hm. rewrite Overflow.read_ptr_write_inside.
  - unfold Coroutine.payload. rewrite skipn_app, repeat_length.
    rewrite skipn_all2 by (rewrite repeat_length; apply Nat.le_refl).
    change (32 - Coroutine.OFF_resume)%nat with 0%nat. cbn [skipn app].
    rewrite firstn_all2 by (rewrite length_le_split; apply Nat.le_refl).
    now apply le_combine_split_ptr.
  - rewrite length_coroutine_payload. unfold PTR_BYTES. lia.
  - rewrite Hm. unfold PTR_BYTES. lia.
Qed.

(** X8: the payload of 32 filler bytes and the address of win takes the
    coroutine victim to win as it does the simple one: the slot resume
    holds the address, the cmd pointer behind it is untouched, win runs
    system on the command string, the Frame is freed and main returns 0,
    whether the integrity check is on or off. *)
Theorem coroutine_payload_reaches_win (img : Coroutine.image) (e : env) :
  is_ptr (Coroutine.win_at img) ->
  Coroutine.win_at img <> Coroutine.safe_resume_at img ->
  is_ptr (Coroutine.echo_SAFE_at img) ->
  Forall is_ptr (argv e) ->
  readable_args e ->
  input e = repeat Byte.x41 32 ++ le_split 8 (Coroutine.win_at img) ->
  exists w,
    Coroutine.run img e = Done 0 w
    /\ read_ptr (frame (fst w)) Coroutine.OFF_resume = Coroutine.win_at img
    /\ read_ptr (frame (fst w)) Coroutine.OFF_cmd = Coroutine.cmd img e
    /\ spilled (fst w) = []
    /\ (forall c, snd w c = None)
    /\ trace (fst w)
       = [EMalloc 48;
          EStore 32 (Coroutine.safe_resume_at img);
          EStore 40 (Coroutine.cmd img e);
          EStdout ("win() @ 0x" ++ fmt_lx (Coroutine.win_at img)
                     ++ LF)%string;
          EFlush;
          EStdout ("c3(): enter input" ++ LF)%string;
          EFlush;
          ERead 0 200 40;
          ELoad 32 (Coroutine.win_at img);
          ELoad 40 (Coroutine.cmd img e);
          EInvoke (Coroutine.win_at img) (Coroutine.cmd img e);
          EEnter "win";
          ESystem (Coroutine.cmd img e);
          EFree].
Proof.
  intros Hw Hne He Ha Hargs Hin.
  change (input e = Coroutine.payload (Coroutine.win_at img)) in Hin.
  pose proof (length_coroutine_payload (Coroutine.win_at img)) as Hl.
  pose proof (coroutine_cmd_is_ptr img e Ha He) as Hcmd.
  destruct (Chain.run_steps_alive img e) as (k & -> & K1 & K2 & K3).
  cbv zeta. rewrite Chain.after_the_call. rewrite Hin.
  rewrite (firstn_all2 (n := 200%nat)) by (rewrite Hl; lia).
  rewrite overrun_fits
    by (rewrite Overflow.length_coroutine_init, Hl; cbn [Nat.add]; lia).
  rewrite read_ptr_coroutine_payload
    by (assumption || apply Overflow.length_coroutine_init).
  rewrite Victims.coroutine_cmd_kept by (assumption || rewrite Hl; lia).
  rewrite Hl.
  rewrite (icall_resolved (Coroutine.text img e) (cfi e)
             (Coroutine.win_at img) (Coroutine.cmd img e)
             Sig_void_cstr Coroutine.win).
  2:{ unfold Coroutine.text. apply Z.eqb_neq in Hne.
      now rewrite Hne, Z.eqb_refl. }
  2:{ apply Victims.cfi_lets_pass. }
  unfold Coroutine.win, system, enter, emit, bind, ret.
  cbn [frame stdin spilled trace app].
  eexists; split; [reflexivity|]; cbn [fst snd frame spilled trace app].
  split; [apply read_ptr_coroutine_payload;
          [assumption | apply Overflow.length_coroutine_init]|].
  split; [apply Victims.coroutine_cmd_kept; [assumption | rewrite Hl; lia]|].
  split; [reflexivity|].
  split; [intros []; cbv [Coroutine.set Coroutine.coro_eqb]; auto
         | reflexivity].
Qed.

(** The exploit against a concrete image, built with the check. *)
Lemma coroutine_payload_reaches_win_witness :
  exists w,
    Coroutine.run Lab.coroutine_image (Bench.coroutine_attack true) = Done 0 w
    /\ In (ESystem 0x7ffe5000) (trace (fst w)).
Proof.
  destruct (coroutine_payload_reaches_win Lab.coroutine_image
              (Bench.coroutine_attack true))
    as (w & Hr & _ & _ & _ & _ & Htr).
  - unfold is_ptr, PTR_MAX. simpl. lia.
  - simpl. lia.
  - unfold is_ptr, PTR_MAX. simpl. lia.
  - repeat constructor; unfold PTR_MAX; simpl; lia.
  - repeat constructor; simpl; discriminate.
  - reflexivity.
  - exists w. split; [exact Hr|]. rewrite Htr. simpl. auto 20.
Defined.

(** X9: the integrity check does not stop the exploit of the simple
    victim: win has the signature of the slot, so with the check on the
    payload of 32 filler bytes and the address of win still ends in win
    running system on the command string, and main returns 0. *)
Theorem check_lets_win_pass (img : Simple.image) (e : env) :
  cfi e = true ->
  is_ptr (Simple.win_at img) ->
  Simple.win_at img <> Simple.safe_at img ->
  readable_args e ->
  input e = repeat Byte.x41 32 ++ le_split 8 (Simple.win_at img) ->
  exists s,
    Simple.run img e = Done 0 s
    /\ filter is_invoke (trace s)
       = [EInvoke (Simple.win_at img) (Simple.cmd img e)]
    /\ In (EEnter "win") (trace s)
    /\ In (ESystem (Simple.cmd img e)) (trace s).
Proof.
  intros _ Hw Hne Hargs Hin.
  destruct (simple_hijack img e Hw Hne Hargs Hin) as (s & Hr & _ & Ht).
  exists s. split; [exact Hr|]. rewrite Ht. cbn. auto 20.
Qed.

Lemma check_lets_win_pass_witness :
  exists s,
    Simple.run Lab.simple_image Bench.simple_attack_checked = Done 0 s
    /\ In (ESystem 0x7ffe5000) (trace s).
Proof.
  destruct (check_lets_win_pass Lab.simple_image Bench.simple_attack_checked)
    as (s & Hr & _ & _ & Hs).
  - reflexivity.
  - unfold is_ptr, PTR_MAX. simpl. lia.
  - simpl. lia.
  - repeat constructor; simpl; discriminate.
  - reflexivity.
  - exists s. split; [exact Hr | exact Hs].
Defined.

End Runs.

(* ===================================================================== *)
(** * Whole runs of the step-0 victim                                     *)
(* ===================================================================== *)

Module Gate.
Import Machine MemoryFacts.
Local Open Scope proc_scope.

Lemma length_step0_init junk v :
  List.length (write_ptr (uninit 40 junk) 32 v) = 40%nat.
Proof.
  rewrite length_write_ptr; rewrite length_uninit; [reflexivity | lia].
Qed.

Lemma length_step0_payload v : List.length (Step0.payload v) = 40%nat.
Proof.
  unfold Step0.payload. now rewrite length_app, repeat_length, length_le_split.
Qed.

Lemma read_ptr_step0_payload v : is_ptr v -> read_ptr (Step0.payload v) 32 = v.
Proof.
  intros H. unfold read_ptr, Step0.payload.
  rewrite skipn_app, repeat_length.
  rewrite skipn_all2 by (rewrite repeat_length; apply Nat.le_refl).
  change (32 - Step0.OFF_auth)%nat with 0%nat. cbn [skipn app].
  rewrite firstn_all2 by (rewrite length_le_split; apply Nat.le_refl).
  now apply le_combine_split_ptr.
Qed.

(** The run of the step-0 victim on the payload, up to the call. *)
Lemma step0_payload_steps (img : Step0.image) (e : env) :
  is_ptr (Step0.win_at img) ->
  input e = Step0.payload (Step0.win_at img) ->
  Step0.run img e
  = (icall (Step0.text img e) (cfi e) (Step0.win_at img) (argv_at e 1) ;;
     ret 0)
      (State (input e) [] []
         [EStore 32 (Step0.check_password_at img);
          EStdout ("win() @ 0x" ++ fmt_lx (Step0.win_at img) ++ LF)%string;
          ERead 0 200 40; ELoad 32 (Step0.win_at img)]).
Proof.
  intros Hw Hin.
  pose proof (length_step0_payload (Step0.win_at img)) as Hl.
  rewrite Step0Facts.step0_run_steps. cbv zeta. rewrite Hin.
  rewrite (firstn_all2 (n := 200%nat)) by (rewrite Hl; lia).
  rewrite (skipn_all2 (n := 200%nat)) by (rewrite Hl; lia).
  rewrite write_covering by (rewrite length_step0_init, Hl; lia).
  rewrite length_step0_init.
  rewrite (firstn_all2 (n := 40%nat)) by (rewrite Hl; lia).
  rewrite overrun_fits by (rewrite length_step0_init, Hl; lia).
  now rewrite read_ptr_step0_payload, Hl by assumption.
Qed.

(** X10: with an input of at most 32 bytes the step-0 victim hands its
    first argument to check_password, whether or not the integrity check
    is on, and prints AUTHENTICATED exactly when that argument is
    mypassword, WRONG PASSWORD otherwise; it consumes the input, stores
    nothing past the Frame and returns 0. *)
Theorem step0_intended_run (img : Step0.image) (e : env) (pass : string) :
  (List.length (input e) <= 32)%nat ->
  is_ptr (Step0.check_password_at img) ->
  cstr e (argv_at e 1) = Some pass ->
  Step0.c_string pass = true ->
  Step0.run img e
  = Done 0
      (State (write (write_ptr (uninit 40 (junk e)) 32
                               (Step0.check_password_at img)) 0 (input e))
             [] []
             ([EStore 32 (Step0.check_password_at img);
               EStdout ("win() @ 0x" ++ fmt_lx (Step0.win_at img)
                          ++ LF)%string;
               ERead 0 200 (List.length (input e));
               ELoad 32 (Step0.check_password_at img);
               EInvoke (Step0.check_password_at img) (argv_at e 1);
               EEnter "check_password"]
              ++ (if String.eqb pass "mypassword"
                  then [EEnter "win";
                        EStdout ("AUTHENTICATED..." ++ LF)%string]
                  else [EStdout ("WRONG PASSWORD" ++ LF)%string]))).
Proof.
  intros Hlen Hc Hp Hs.
  rewrite Step0Facts.step0_run_steps. cbv zeta.
  rewrite (firstn_all2 (n := 200%nat)) by lia.
  rewrite (skipn_all2 (n := 200%nat)) by lia.
  rewrite overrun_fits by (rewrite length_step0_init; cbn [Nat.add]; lia).
  rewrite Victims.simple_slot_kept by assumption.
  unfold bind at 1.
  rewrite (icall_resolved (Step0.text img e) (cfi e)
             (Step0.check_password_at img) (argv_at e 1)
             Sig_void_cstr (Step0.check_password e)).
  2:{ unfold Step0.text. now rewrite Z.eqb_refl. }
  2:{ apply Victims.cfi_lets_pass. }
  unfold Step0.check_password, Step0.win, enter, printf, emit, bind, ret.
  rewrite Hp. cbn [frame stdin spilled trace app].
  destruct (String.eqb pass "mypassword") eqn:E.
  - apply String.eqb_eq in E. subst pass. reflexivity.
  - apply String.eqb_neq in E.
    destruct (Step0.strcmp pass "mypassword" =? 0) eqn:Ec; [|reflexivity].
    apply Z.eqb_eq in Ec.
    apply Step0Facts.strcmp_zero in Ec; [contradiction | exact Hs | reflexivity].
Qed.

(** Ten bytes of input and the argument id: WRONG PASSWORD. *)
Lemma step0_intended_run_witness :
  exists s,
    Step0.run Lab.step0_image Lab.short_run = Done 0 s
    /\ In (EStdout ("WRONG PASSWORD" ++ LF)%string) (trace s)
    /\ ~ In (EEnter "win") (trace s).
Proof.
  eexists. split; [| split].
  - apply (step0_intended_run Lab.step0_image Lab.short_run "id").
    + simpl. lia.
    + unfold is_ptr, PTR_MAX. simpl. lia.
    + reflexivity.
    + reflexivity.
  - simpl. auto 10.
  - simpl. intros H.
    repeat (destruct H as [H | H]; [discriminate|]). exact H.
Defined.

(** X11: started without an argument the step-0 victim has no default to
    fall back on: with an input of at most 32 bytes it passes the null
    pointer argv[1] to check_password, and where no string can be read
    at the null pointer the run ends there, in strcmp, having printed the
    address line only. *)
Theorem step0_needs_argument (img : Step0.image) (e : env) :
  argc e = 1 ->
  (List.length (input e) <= 32)%nat ->
  is_ptr (Step0.check_password_at img) ->
  cstr e NULL = None ->
  Step0.run img e
  = Halt (BadString NULL)
      (State (write (write_ptr (uninit 40 (junk e)) 32
                               (Step0.check_password_at img)) 0 (input e))
             [] []
             [EStore 32 (Step0.check_password_at img);
              EStdout ("win() @ 0x" ++ fmt_lx (Step0.win_at img) ++ LF)%string;
              ERead 0 200 (List.length (input e));
              ELoad 32 (Step0.check_password_at img);
              EInvoke (Step0.check_password_at img) NULL;
              EEnter "check_password"]).
Proof.
  intros Hargc Hlen Hc Hnull.
  assert (Harg : argv_at e 1 = NULL).
  { unfold argv_at, argc in *. apply nth_overflow. lia. }
  rewrite Step0Facts.step0_run_steps. cbv zeta.
  rewrite (firstn_all2 (n := 200%nat)) by lia.
  rewrite (skipn_all2 (n := 200%nat)) by lia.
  rewrite overrun_fits by (rewrite length_step0_init; cbn [Nat.add]; lia).
  rewrite Victims.simple_slot_kept by assumption.
  unfold bind at 1.
  rewrite (icall_resolved (Step0.text img e) (cfi e)
             (Step0.check_password_at img) (argv_at e 1)
             Sig_void_cstr (Step0.check_password e)).
  2:{ unfold Step0.text. now rewrite Z.eqb_refl. }
  2:{ apply Victims.cfi_lets_pass. }
  rewrite Harg.
  unfold Step0.check_password, enter, emit, bind, halt.
  rewrite Hnull. reflexivity.
Qed.

Lemma step0_needs_argument_witness :
  exists s,
    Step0.run Lab.step0_image Lab.bare_run = Halt (BadString NULL) s
    /\ filter is_invoke (trace s) = [EInvoke 0x401146 NULL].
Proof.
  eexists. split.
  - apply (step0_needs_argument Lab.step0_image Lab.bare_run).
    + reflexivity.
    + simpl. lia.
    + unfold is_ptr, PTR_MAX. simpl. lia.
    + reflexivity.
  - reflexivity.
Defined.

(** X12: built without the integrity check, the step-0 victim is taken
    past the password by 32 filler bytes and the address of win: win runs
    and prints AUTHENTICATED although check_password is never entered,
    whatever the argument is and even when there is none; main returns 0. *)
Theorem step0_payload_skips_password (img : Step0.image) (e : env) :
  cfi e = false ->
  is_ptr (Step0.win_at img) ->
  Step0.win_at img <> Step0.check_password_at img ->
  input e = repeat Byte.x41 32 ++ le_split 8 (Step0.win_at img) ->
  Step0.run img e
  = Done 0
      (State (input e) [] []
         [EStore 32 (Step0.check_password_at img);
          EStdout ("win() @ 0x" ++ fmt_lx (Step0.win_at img) ++ LF)%string;
          ERead 0 200 40;
          ELoad 32 (Step0.win_at img);
          EInvoke (Step0.win_at img) (argv_at e 1);
          EEnter "win";
          EStdout ("AUTHENTICATED..." ++ LF)%string]).
Proof.
  intros Hcfi Hw Hne Hin.
  rewrite step0_payload_steps by assumption.
  unfold bind at 1.
  rewrite (icall_resolved (Step0.text img e) (cfi e) (Step0.win_at img)
             (argv_at e 1) Sig_void_void (fun _ => Step0.win)).
  - reflexivity.
  - unfold Step0.text. apply Z.eqb_neq in Hne.
    now rewrite Hne, Z.eqb_refl.
  - now rewrite Hcfi.
Qed.

(** No argument at all, and still AUTHENTICATED. *)
Lemma step0_payload_skips_password_witness :
  exists s,
    Step0.run Lab.step0_image Bench.step0_attack_bare = Done 0 s
    /\ In (EStdout ("AUTHENTICATED..." ++ LF)%string) (trace s)
    /\ ~ In (EEnter "check_password") (trace s).
Proof.
  eexists. split; [| split].
  - apply (step0_payload_skips_password Lab.step0_image
             Bench.step0_attack_bare).
    + reflexivity.
    + unfold is_ptr, PTR_MAX. simpl. lia.
    + simpl. lia.
    + reflexivity.
  - simpl. auto 10.
  - simpl. intros H.
    repeat (destruct H as [H | H]; [discriminate|]). exact H.
Defined.

(** X13: built with the integrity check, the same payload gets nowhere:
    win takes no argument, the slot is declared to take a string, so the
    call through the overwritten slot aborts the run before win is
    entered and before anything but the address line is printed. *)
Theorem step0_check_stops_payload (img : Step0.image) (e : env) :
  cfi e = true ->
  is_ptr (Step0.win_at img) ->
  Step0.win_at img <> Step0.check_password_at img ->
  input e = repeat Byte.x41 32 ++ le_split 8 (Step0.win_at img) ->
  Step0.run img e
  = Halt (CfiAbort (Step0.win_at img))
      (State (input e) [] []
         [EStore 32 (Step0.check_password_at img);
          EStdout ("win() @ 0x" ++ fmt_lx (Step0.win_at img) ++ LF)%string;
          ERead 0 200 40;
          ELoad 32 (Step0.win_at img);
          EInvoke (Step0.win_at img) (argv_at e 1)]).
Proof.
  intros Hcfi Hw Hne Hin.
  rewrite step0_payload_steps by assumption.
  unfold bind at 1, icall, bind, emit, Step0.text.
  apply Z.eqb_neq in Hne. rewrite Hne, Z.eqb_refl, Hcfi. reflexivity.
Qed.

Lemma step0_check_stops_payload_witness :
  exists s,
    Step0.run Lab.step0_image (Lab.step0_attack true)
    = Halt (CfiAbort 0x401136) s
    /\ ~ In (EEnter "win") (trace s).
Proof.
  eexists. split.
  - apply (step0_check_stops_payload Lab.step0_image (Lab.step0_attack true)).
    + reflexivity.
    + unfold is_ptr, PTR_MAX. simpl. lia.
    + simpl. lia.
    + reflexivity.
  - simpl. intros H.
    repeat (destruct H as [H | H]; [discriminate|]). exact H.
Defined.

End Gate.

(* ===================================================================== *)
(** * The DTE and its commands                                            *)
(* ===================================================================== *)

Module Dte.
Import Rtsan Modem.
Import Text.
Local Open Scope proc_scope.

(** The terminator every answer of the modem ends in. *)
Lemma answers_of_the_modem cmd s :
  exists value s',
    SimModem_process cmd s = Done (value ++ CR ++ LF ++ "OK" ++ CR ++ LF)%string s'
    /\ In value ["+CSQ: 18,99"; "310260000000000"; "860000000000000"; ""]
    /\ g_cached_rssi s' = g_cached_rssi s /\ g_cached_ber s' = g_cached_ber s
    /\ g_dte s' = g_dte s /\ internal_lock_ s' = internal_lock_ s
    /\ heap s'
       = (if on_heap (value ++ CR ++ LF ++ "OK" ++ CR ++ LF)%string
          then S (heap s) else heap s).
Proof.
  destruct s as [r b d l h o]. unfold SimModem_process. cbv zeta.
  destruct (found "AT+CSQ" cmd);
    [| destruct (found "AT+CIMI" cmd);
       [| destruct (found "AT+CGSN" cmd)]];
    [exists "+CSQ: 18,99" | exists "310260000000000"
     | exists "860000000000000" | exists ""];
    eexists; (split; [reflexivity|]); cbn; auto 20.
Qed.

(** Every answer of the modem shows OK. *)
Lemma answers_show_OK cmd s :
  exists response s',
    SimModem_process cmd s = Done response s'
    /\ found "OK" response = true.
Proof.
  destruct (answers_of_the_modem cmd s) as (v & s' & E & Hv & _).
  exists (v ++ CR ++ LF ++ "OK" ++ CR ++ LF)%string, s'.
  split; [exact E|].
  cbn [In] in Hv.
  repeat (destruct Hv as [<- | Hv]; [reflexivity|]). destruct Hv.
Qed.

Ltac by_answer cmd :=
  destruct (found "AT+CSQ" cmd);
    [| destruct (found "AT+CIMI" cmd);
       [| destruct (found "AT+CGSN" cmd)]].

Ltac run_dte :=
  cbv [command generic_command generic_get_string generic_command_with_parse
       SimModem_process Scoped Scoped_destructor new_string delete_string
       set_lock set_heap enter leave emit bind ret
       g_cached_rssi g_cached_ber g_dte internal_lock_ heap ops fst snd].

(** X14: called without a callback, SimpleDTE::command answers TIMEOUT
    for every command, and yet it takes the lock and asks the modem
    first: the first library call is pthread_mutex_lock, the last one
    pthread_mutex_unlock, and the lock count, the heap and the cached
    values are afterwards what they were before. *)
Theorem command_without_callback {X} (cmd : string) (t : Z) (x : X) s :
  exists log,
    command cmd None t x s
    = Done (TIMEOUT, x)
        (State (g_cached_rssi s) (g_cached_ber s) (g_dte s)
               (internal_lock_ s) (heap s) (ops s ++ log))
    /\ hd_error log = Some (Enter "SimpleDTE::command" blocking)
    /\ hd_error (filter is_lib log) = Some (Lib pthread_mutex_lock)
    /\ last (filter is_lib log) Leave = Lib pthread_mutex_unlock
    /\ In (Enter "SimModem::process" unmarked) log.
Proof.
  destruct s as [r b d l h o]. run_dte.
  by_answer cmd; cbn; rewrite <- ?app_assoc; cbn [app];
    (eexists; split; [reflexivity|]); cbn; auto 20.
Qed.

(** X15: generic_command_with_parse drops the verdict of the parser. For
    every command, the function takes the lock and asks the modem; the
    answer shows OK, so the parser is run on that answer, in the state
    the modem left; the function then goes on from the state the parser
    left (giving back the answer's storage and the lock) and returns OK,
    whatever the parser returned, with what the parser left in the
    captured variables. *)
Theorem parse_verdict_dropped {X} (cmd : string) (t : Z)
    (parse : string -> X -> M state (bool * X)) (x : X) s :
  (forall response y s0, exists p s1, parse response y s0 = Done p s1) ->
  exists response s0 verdict y s1,
    (enter "SimpleDTE::generic_command_with_parse" unmarked ;;
     enter "SimpleDTE::command" blocking ;;
     Scoped ;;
     SimModem_process cmd) s = Done response s0
    /\ found "OK" response = true
    /\ parse response x s0 = Done (verdict, y) s1
    /\ generic_command_with_parse cmd t parse x s
       = (delete_string response ;; Scoped_destructor ;; leave ;; leave ;;
          ret (OK, y)) s1.
Proof.
  intros Hp. destruct s as [r b d l h o]. run_dte.
  by_answer cmd; cbn;
    match goal with
    | |- context [parse ?resp x ?s0] =>
        destruct (Hp resp x s0) as ([v y] & [r1 b1 d1 l1 h1 o1] & E);
        exists resp, s0, v, y, (State r1 b1 d1 l1 h1 o1);
        rewrite E; cbn
    end;
    (split; [reflexivity|]; split; [reflexivity|]; split; reflexivity).
Qed.

(** A parser that is never satisfied: the command still succeeds. *)
Lemma parse_verdict_dropped_witness :
  exists response s0 verdict y s1,
    (enter "SimpleDTE::generic_command_with_parse" unmarked ;;
     enter "SimpleDTE::command" blocking ;;
     Scoped ;;
     SimModem_process "AT") boot = Done response s0
    /\ found "OK" response = true
    /\ (fun _ (y : unit) => ret (false, y)) response tt s0
       = Done (verdict, y) s1
    /\ generic_command_with_parse "AT" 1000
         (fun _ (y : unit) => ret (false, y)) tt boot
       = (delete_string response ;; Scoped_destructor ;; leave ;; leave ;;
          ret (OK, y)) s1.
Proof.
  apply (parse_verdict_dropped "AT" 1000
           (fun _ (y : unit) => ret (false, y)) tt boot).
  intros response y s0. exists (false, y), s0. reflexivity.
Defined.

(** X16: generic_get_string succeeds for every command and hands back the
    answer of the modem without the line end and OK line that close it
    (the empty string for a command the modem does not know); the lock
    is released again. *)
Theorem get_string_strips_terminator (cmd out : string) (t : Z) s :
  exists value s',
    generic_get_string cmd out t s = Done (OK, value) s'
    /\ (forall s0, exists s1,
          SimModem_process cmd s0
          = Done (value ++ CR ++ LF ++ "OK" ++ CR ++ LF)%string s1)
    /\ internal_lock_ s' = internal_lock_ s
    /\ g_cached_rssi s' = g_cached_rssi s
    /\ g_cached_ber s' = g_cached_ber s.
Proof.
  destruct s as [r b d l h o]. run_dte.
  by_answer cmd; cbn;
    (eexists; eexists; split; [reflexivity|]; cbn;
     split; [intros s0; eexists; reflexivity | auto]).
Qed.

(** X17: generic_command with the pass string OK, and so sync, succeeds
    for every command and every fail string, from every state, and leaves
    the lock count, the heap and the cached values as they were. *)
Theorem sync_succeeds (cmd fail : string) (t : Z) s :
  (exists log,
     generic_command cmd "OK" fail t s
     = Done OK (State (g_cached_rssi s) (g_cached_ber s) (g_dte s)
                      (internal_lock_ s) (heap s) (ops s ++ log)))
  /\
  (exists log,
     sync s
     = Done OK (State (g_cached_rssi s) (g_cached_ber s) (g_dte s)
                      (internal_lock_ s) (heap s) (ops s ++ log))).
Proof.
  destruct s as [r b d l h o]. split.
  - run_dte. by_answer cmd; cbn; rewrite <- ?app_assoc; cbn [app];
      eexists; reflexivity.
  - unfold sync. run_dte. cbn. rewrite <- ?app_assoc. cbn [app].
    eexists; reflexivity.
Qed.

(** X18: get_signal_quality reads 18 and 99 from the answer of the modem,
    whatever the two variables held before and from every state, returns
    OK, and leaves the lock count, the heap and the cached values as they
    were: it does not touch the cache itself. *)
Theorem signal_quality_read (rssi ber : Z) s :
  exists log,
    get_signal_quality rssi ber s
    = Done (OK, (18, 99))
        (State (g_cached_rssi s) (g_cached_ber s) (g_dte s)
               (internal_lock_ s) (heap s) (ops s ++ log))
    /\ In (Sscanf 2) log.
Proof.
  destruct s as [r b d l h o]. unfold get_signal_quality. run_dte. cbn.
  rewrite <- ?app_assoc. cbn [app].
  eexists. split; [reflexivity|]. cbn. auto 30.
Qed.

(** X19: get_imsi succeeds from every state and replaces whatever the
    string held by the fifteen digits the modem answers with; the lock is
    released again and the cached values are untouched. *)
Theorem imsi_read (imsi : string) s :
  exists s',
    get_imsi imsi s = Done (OK, "310260000000000") s'
    /\ internal_lock_ s' = internal_lock_ s
    /\ g_cached_rssi s' = g_cached_rssi s
    /\ g_cached_ber s' = g_cached_ber s
    /\ g_dte s' = g_dte s.
Proof.
  destruct s as [r b d l h o]. unfold get_imsi. run_dte.
  cbn; eexists; (split; [reflexivity|]); cbn; auto.
Qed.

(** X20: once g_dte points to the DTE, rt_timer_callback_unsafe runs to
    its end and overwrites the cache with what the modem reports, 18 and
    99, whatever was cached before; the lock it took is released and what
    it allocated is freed. *)
Theorem unsafe_callback_refreshes_cache s :
  g_dte s = true ->
  exists log,
    rt_timer_callback_unsafe s
    = Done tt (State 18 99 true (internal_lock_ s) (heap s) (ops s ++ log)).
Proof.
  destruct s as [r b d l h o]. cbn [g_dte]. intros ->.
  unfold rt_timer_callback_unsafe, get_signal_quality, store_rssi, store_ber.
  run_dte. cbn. rewrite <- ?app_assoc. cbn [app].
  eexists. reflexivity.
Qed.

(** A stale cache, the lock held once and three blocks on the heap. *)
Lemma unsafe_callback_refreshes_cache_witness :
  exists log,
    rt_timer_callback_unsafe Bench.modem_busy
    = Done tt (State 18 99 true 1 3 log).
Proof.
  destruct (unsafe_callback_refreshes_cache Bench.modem_busy) as (log & E).
  - reflexivity.
  - eexists. exact E.
Defined.

(** X21: without the checker, main runs to its end from every state and
    returns 0: the three commands report OK, the cache then holds 18 and
    99, g_dte is null again, and the lock count and the heap are what
    they were at the start. *)
Theorem main_runs_to_its_end s :
  exists s',
    main s = Done 0 s'
    /\ g_cached_rssi s' = 18 /\ g_cached_ber s' = 99
    /\ g_dte s' = false
    /\ internal_lock_ s' = internal_lock_ s /\ heap s' = heap s
    /\ In (Stdout ("[task] AT sync: OK" ++ LF ++ LF)) (log_of main s)
    /\ In (Stdout ("[task] Signal quality: RSSI=18, BER=99  (OK)" ++ LF))
          (log_of main s)
    /\ In (Stdout ("[task] IMSI: 310260000000000  (OK)" ++ LF ++ LF))
          (log_of main s).
Proof.
  destruct s as [r b d l h o].
  eexists. split; [vm_compute; reflexivity|].
  cbn [g_cached_rssi g_cached_ber g_dte internal_lock_ heap].
  repeat (split; [reflexivity|]).
  repeat split; vm_compute; auto 60.
Qed.

End Dte.

(* ===================================================================== *)
(** * What the address line gives away                                    *)
(* ===================================================================== *)

Module Leak.
Import Machine MemoryFacts TextFacts.

Lemma fmt_lx_of_Z a : is_ptr a -> ("0x" ++ fmt_lx a)%string = HexString.of_Z a.
Proof.
  intros [H0 H1]. unfold fmt_lx. rewrite Z.mod_small by (split; assumption).
  destruct a; [reflexivity | reflexivity | lia].
Qed.

(** X22: what each victim has printed when it asks for its first byte of
    input is the address line alone (followed, in the coroutine victim, by
    the line c3(): enter input), and the hexadecimal field of that line
    reads back as exactly the address of win: the leak is all an attacker
    needs to build the payload. *)
Theorem leak_decodes_to_win
    (si : Simple.image) (ci : Coroutine.image) (zi : Step0.image) (e : env) :
  is_ptr (Simple.win_at si) ->
  is_ptr (Coroutine.win_at ci) ->
  is_ptr (Step0.win_at zi) ->
  (exists field,
     printed_before_read (trace (Simple.ran si e))
     = ("win() @ " ++ field ++ LF)%string
     /\ HexString.to_Z field = Simple.win_at si)
  /\ (exists field,
        printed_before_read (trace (Coroutine.ran ci e))
        = ("win() @ " ++ field ++ LF ++ "c3(): enter input" ++ LF)%string
        /\ HexString.to_Z field = Coroutine.win_at ci)
  /\ (exists field,
        printed_before_read (trace (Step0.ran zi e))
        = ("win() @ " ++ field ++ LF)%string
        /\ HexString.to_Z field = Step0.win_at zi).
Proof.
  intros Hs Hc Hz. repeat split.
  - destruct (SimpleFacts.simple_shape si e) as (post & -> & _).
    cbn [trace app printed_before_read].
    exists (HexString.of_Z (Simple.win_at si)).
    split; [| apply HexString.to_Z_of_Z].
    rewrite <- fmt_lx_of_Z by assumption.
    rewrite append_nil_r. reflexivity.
  - destruct (CoroutineFacts.coroutine_shape ci e) as (post & -> & _).
    cbn [trace app printed_before_read].
    exists (HexString.of_Z (Coroutine.win_at ci)).
    split; [| apply HexString.to_Z_of_Z].
    rewrite <- fmt_lx_of_Z by assumption.
    rewrite append_nil_r, !append_assoc. reflexivity.
  - destruct (Step0Facts.step0_shape zi e) as (post & -> & _).
    cbn [trace app printed_before_read].
    exists (HexString.of_Z (Step0.win_at zi)).
    split; [| apply HexString.to_Z_of_Z].
    rewrite <- fmt_lx_of_Z by assumption.
    rewrite append_nil_r. reflexivity.
Qed.

Lemma leak_decodes_to_win_witness :
  exists field,
    printed_before_read (trace (Simple.ran Lab.simple_image Lab.short_run))
    = ("win() @ " ++ field ++ LF)%string
    /\ HexString.to_Z field = 0x401156.
Proof.
  apply (leak_decodes_to_win Lab.simple_image Lab.coroutine_image
           Lab.step0_image Lab.short_run);
    unfold is_ptr, PTR_MAX; simpl; lia.
Defined.

End Leak.
